(** * An authoritative DNS server: wire codec, zone store, zone-file loader
      and query dispatcher, embedded from the Go sources

    The development follows the layout of the repository:
    - [Go]   : the fragments of Go's [strings], [strconv], [encoding/binary]
               and [net] packages the program calls, on byte strings;
    - [dns]  : package [dns] ([types.go], [parser.go], [builder.go],
               [zone.go]);
    - [main] : [cmd/dns-server/main.go] ([findZone], the shared [Builder]).

    Conventions.  A Go [string] and a Go [[]byte] are both sequences of
    bytes, so both are [list byte] here and the conversions [string(b)] and
    [[]byte(s)] are the identity.  [uint8], [uint16] and [uint32] values are
    numbers in [N]; every conversion that can wrap is written with its
    modulus.  Positions and lengths (Go [int]) are [nat]: the program only
    adds quantities bounded by the length of a buffer and by 65535, so the
    64-bit range is never left. *)

From Stdlib Require Import NArith List Ascii String Lia Bool Arith DecimalN.
From stdpp Require Import gmap strings list fin_maps.

Set Default Proof Using "Type".
Open Scope N_scope.
Open Scope list_scope.

(** ** Results of fallible code *)

(** [Ok] and [Err] are the two ways a Go function returns; [Panic] is a
    run-time panic (an index or slice expression out of range); [Diverge]
    is what the fuel-indexed model yields when the fuel does not suffice. *)
Inductive result (E A : Type) : Type :=
| Ok (a : A)
| Err (e : E)
| Panic
| Diverge.
Arguments Ok {E A} a.
Arguments Err {E A} e.
Arguments Panic {E A}.
Arguments Diverge {E A}.

Definition bind {E A B} (r : result E A) (k : A -> result E B) : result E B :=
  match r with
  | Ok a => k a
  | Err e => Err e
  | Panic => Panic
  | Diverge => Diverge
  end.

Notation "'let*' x ':=' r 'in' k" := (bind r (fun x => k))
  (at level 10, x pattern, r at level 200, k at level 200, only parsing).

(** An index or slice expression: [None] stands for the panic. *)
Definition try {E A} (o : option A) : result E A :=
  match o with Some a => Ok a | None => Panic end.

(** ** Go library fragments *)

Module Go.

Definition byte := ascii.

(** A string constant of the source. *)
Definition str (s : string) : list byte := list_ascii_of_string s.

(** [uint8(n)] / [byte(n)] for an [int] [n]. *)
Definition byte_of_nat (n : nat) : byte := ascii_of_N (N.of_nat n mod 256).
Definition byte_of_N (n : N) : byte := ascii_of_N (n mod 256).
Definition bytes (l : list N) : list byte := map byte_of_N l.

(** [data[i]]. *)
Definition index (data : list byte) (i : nat) : option byte := nth_error data i.

(** [data[lo:hi]] for a slice whose capacity is its length. *)
Definition slice (data : list byte) (lo hi : nat) : option (list byte) :=
  if (lo <=? hi)%nat && (hi <=? length data)%nat
  then Some (firstn (hi - lo) (skipn lo data))
  else None.

(** [binary.BigEndian.Uint16], [Uint32], [PutUint16], [PutUint32]. *)
Definition Uint16 (b : list byte) : option N :=
  match b with
  | b0 :: b1 :: _ => Some (N.lor (N_of_ascii b1) (N.shiftl (N_of_ascii b0) 8))
  | _ => None
  end.

Definition Uint32 (b : list byte) : option N :=
  match b with
  | b0 :: b1 :: b2 :: b3 :: _ =>
      Some (N.lor (N.lor (N.lor (N_of_ascii b3) (N.shiftl (N_of_ascii b2) 8))
                         (N.shiftl (N_of_ascii b1) 16))
                  (N.shiftl (N_of_ascii b0) 24))
  | _ => None
  end.

Definition PutUint16 (v : N) : list byte :=
  [byte_of_N (N.shiftr v 8); byte_of_N v].

Definition PutUint32 (v : N) : list byte :=
  [byte_of_N (N.shiftr v 24); byte_of_N (N.shiftr v 16);
   byte_of_N (N.shiftr v 8); byte_of_N v].

(** [strings.Join(elems, sep)]. *)
Fixpoint Join (elems : list (list byte)) (sep : list byte) : list byte :=
  match elems with
  | [] => []
  | [e] => e
  | e :: rest => e ++ sep ++ Join rest sep
  end.

(** [strings.Split(s, sep)] for a separator of one byte, the only use the
    program makes of it.  The result is never empty: [Split "" sep] is
    the list holding the empty string. *)
Fixpoint Split (s : list byte) (sep : byte) : list (list byte) :=
  match s with
  | [] => [[]]
  | c :: s =>
    if bool_decide (c = sep) then [] :: Split s sep
    else match Split s sep with
         | l :: ls => (c :: l) :: ls
         | [] => [[c]]
         end
  end.

Definition HasPrefix (s prefix : list byte) : bool :=
  (length prefix <=? length s)%nat &&
  bool_decide (firstn (length prefix) s = prefix).

Definition HasSuffix (s suffix : list byte) : bool :=
  (length suffix <=? length s)%nat &&
  bool_decide (skipn (length s - length suffix) s = suffix).

Definition TrimPrefix (s prefix : list byte) : list byte :=
  if HasPrefix s prefix then skipn (length prefix) s else s.

Definition TrimSuffix (s suffix : list byte) : list byte :=
  if HasSuffix s suffix then firstn (length s - length suffix) s else s.

(** [strings.Contains(s, substr)]. *)
Definition Contains (s substr : list byte) : bool :=
  existsb (fun i => HasPrefix (skipn i s) substr) (seq 0 (S (length s))).

(** A string of ASCII bytes, all below 0x80 ([utf8.RuneSelf]). *)
Definition isASCII (s : list byte) : bool :=
  forallb (fun c => N_of_ascii c <? 128) s.

(** Case mapping and white space.  [strings.ToLower], [ToUpper], [Fields]
    and [TrimSpace] work on the runes of the UTF-8 decoding of a string;
    on a string of ASCII bytes they map the letters A-Z and a-z and treat
    the six bytes of [isSpace] as white space, and this is what is
    embedded here.  On a string with a byte from 0x80 on the functions
    below differ from Go's (which case-map and trim other runes, and
    replace a byte that is not UTF-8 by U+FFFD): a property that depends
    on what they compute is stated for strings that satisfy [isASCII]. *)
Definition toLower (c : byte) : byte :=
  let n := N_of_ascii c in
  if (65 <=? n) && (n <=? 90) then ascii_of_N (n + 32) else c.

Definition toUpper (c : byte) : byte :=
  let n := N_of_ascii c in
  if (97 <=? n) && (n <=? 122) then ascii_of_N (n - 32) else c.

Definition ToLower (s : list byte) : list byte := map toLower s.
Definition ToUpper (s : list byte) : list byte := map toUpper s.

Definition isSpace (c : byte) : bool :=
  let n := N_of_ascii c in
  (n =? 9) || (n =? 10) || (n =? 11) || (n =? 12) || (n =? 13) || (n =? 32).

Fixpoint dropWhile (f : byte -> bool) (s : list byte) : list byte :=
  match s with
  | [] => []
  | c :: s' => if f c then dropWhile f s' else s
  end.

Definition trimFunc (f : byte -> bool) (s : list byte) : list byte :=
  rev (dropWhile f (rev (dropWhile f s))).

Definition TrimSpace (s : list byte) : list byte := trimFunc isSpace s.

(** [strings.Trim(s, cutset)]. *)
Definition Trim (s cutset : list byte) : list byte :=
  trimFunc (fun c => bool_decide (c ∈ cutset)) s.

(** [strings.Fields]: [cur] is the field being read. *)
Fixpoint Fields_from (s cur : list byte) : list (list byte) :=
  match s with
  | [] => match cur with [] => [] | _ => [cur] end
  | c :: s =>
    if isSpace c
    then match cur with [] => Fields_from s [] | _ => cur :: Fields_from s [] end
    else Fields_from s (cur ++ [c])
  end.

Definition Fields (s : list byte) : list (list byte) := Fields_from s [].

(** [strconv.Itoa] on a value that is not negative. *)
Fixpoint digits (d : Decimal.uint) : list byte :=
  match d with
  | Decimal.Nil => []
  | Decimal.D0 d => "0"%char :: digits d
  | Decimal.D1 d => "1"%char :: digits d
  | Decimal.D2 d => "2"%char :: digits d
  | Decimal.D3 d => "3"%char :: digits d
  | Decimal.D4 d => "4"%char :: digits d
  | Decimal.D5 d => "5"%char :: digits d
  | Decimal.D6 d => "6"%char :: digits d
  | Decimal.D7 d => "7"%char :: digits d
  | Decimal.D8 d => "8"%char :: digits d
  | Decimal.D9 d => "9"%char :: digits d
  end.

Definition Itoa (n : N) : list byte := digits (N.to_uint n).

(** [strconv.ParseUint(s, 10, bitSize)] for a [bitSize] from 1 to 64: the
    value and the error.  The bytes are read from the left with the
    value so far in a [uint64]: a byte that is not a digit ends the scan
    with a syntax error and the value 0, and a value that leaves the
    range ends it with a range error and the largest value of the size,
    whatever follows. *)
Inductive NumError := ErrSyntax | ErrRange.

Fixpoint ParseUint_loop (s : list byte) (n maxVal : N) : N * option NumError :=
  match s with
  | [] => (n, None)
  | c :: s =>
    let k := N_of_ascii c in
    if (48 <=? k) && (k <=? 57) then
      if (2 ^ 64 - 1) / 10 + 1 <=? n then (maxVal, Some ErrRange)
      else
        let n := (n * 10) mod 2 ^ 64 in
        let n1 := (n + (k - 48)) mod 2 ^ 64 in
        if (n1 <? n) || (maxVal <? n1) then (maxVal, Some ErrRange)
        else ParseUint_loop s n1 maxVal
    else (0, Some ErrSyntax)
  end.

Definition ParseUint (s : list byte) (bitSize : N) : N * option NumError :=
  match s with
  | [] => (0, Some ErrSyntax)
  | _ => ParseUint_loop s 0 (2 ^ bitSize - 1)
  end.

(** [net.IP]: [To4], [To16], [Equal]; the nil slice is the empty list. *)
Definition v4InV6Prefix : list byte :=
  bytes [0; 0; 0; 0; 0; 0; 0; 0; 0; 0; 0xff; 0xff].

Definition To4 (ip : list byte) : list byte :=
  if (length ip =? 4)%nat then ip
  else if (length ip =? 16)%nat && bool_decide (firstn 12 ip = v4InV6Prefix)
  then skipn 12 ip
  else [].

Definition To16 (ip : list byte) : list byte :=
  if (length ip =? 4)%nat then v4InV6Prefix ++ ip
  else if (length ip =? 16)%nat then ip
  else [].

Definition IPEqual (ip x : list byte) : bool :=
  if (length ip =? length x)%nat then bool_decide (ip = x)
  else if (length ip =? 4)%nat && (length x =? 16)%nat
  then bool_decide (firstn 12 x = v4InV6Prefix) && bool_decide (ip = skipn 12 x)
  else if (length ip =? 16)%nat && (length x =? 4)%nat
  then bool_decide (firstn 12 ip = v4InV6Prefix) && bool_decide (skipn 12 ip = x)
  else false.

(** The dotted-quad syntax of [net.ParseIP]: four decimal fields, each at
    most 255 and without a leading zero; the result is the 16-byte form.
    This is the part of [net.ParseIP] used to run the loader on concrete
    files; text in another syntax (an IPv6 literal) is not covered and
    yields nil here. *)
Fixpoint parseIPv4Fields (s : list byte) (val digLen : N) (prev : option byte)
    (fields : list N) : option (list N) :=
  match s with
  | [] => if bool_decide (length fields = 3%nat)
             && negb (bool_decide (prev = Some "."%char))
             && negb (bool_decide (prev = None))
          then Some (fields ++ [val]) else None
  | c :: s =>
    let n := N_of_ascii c in
    if (48 <=? n) && (n <=? 57) then
      if (digLen =? 1) && (val =? 0) then None
      else
        let val := val * 10 + (n - 48) in
        if 255 <? val then None
        else parseIPv4Fields s val (digLen + 1) (Some c) fields
    else if bool_decide (c = "."%char) then
      if bool_decide (prev = None) || bool_decide (prev = Some "."%char)
         || bool_decide (length fields = 3%nat)
      then None
      else parseIPv4Fields s 0 0 (Some c) (fields ++ [val])
    else None
  end.

Definition ParseIPv4 (s : list byte) : list byte :=
  match parseIPv4Fields s 0 0 None [] with
  | Some fields => v4InV6Prefix ++ bytes fields
  | None => []
  end.

End Go.

(** ** Package dns *)

Module dns.
Import Go.

(** *** types.go *)

Definition TypeA : N := 1.
Definition TypeNS : N := 2.
Definition TypeCNAME : N := 5.
Definition TypeSOA : N := 6.
Definition TypeMX : N := 15.
Definition TypeTXT : N := 16.
Definition TypeAAAA : N := 28.

Definition ClassIN : N := 1.

Definition RcodeNoError : N := 0.
Definition RcodeFormatError : N := 1.
Definition RcodeServerFailure : N := 2.
Definition RcodeNameError : N := 3.
Definition RcodeNotImplemented : N := 4.
Definition RcodeRefused : N := 5.

Definition FlagQR : N := N.shiftl 1 15.
Definition FlagAA : N := N.shiftl 1 10.
Definition FlagTC : N := N.shiftl 1 9.
Definition FlagRD : N := N.shiftl 1 8.
Definition FlagRA : N := N.shiftl 1 7.

Record Header := mkHeader {
  ID : N; Flags : N; QDCount : N; ANCount : N; NSCount : N; ARCount : N }.

Record Question := mkQuestion {
  QName : list byte; QType : N; QClass : N }.

Record SOA := mkSOA {
  MName : list byte; RName : list byte;
  Serial : N; Refresh : N; Retry : N; Expire : N; Minimum : N }.

(** [net.IP] is a byte slice; the nil slice is the empty list, and so is
    the nil [[]string] of [Text]. *)
Record ResourceRecord := mkRR {
  Name : list byte; Type_ : N; Class : N; TTL : N; RDLength : N;
  RData : list byte;
  Address : list byte; Target : list byte; Priority : N;
  Text : list (list byte); SOAData : option SOA }.

(** The zero value [ResourceRecord{}]. *)
Definition zeroRR : ResourceRecord :=
  mkRR [] 0 0 0 0 [] [] [] 0 [] None.

Record Message := mkMessage {
  Hdr : Header; Questions : list Question;
  Answers : list ResourceRecord; Authority : list ResourceRecord;
  Additional : list ResourceRecord }.

(** *** parser.go *)

(** The errors the parser creates with [fmt.Errorf], and the wrappers
    [Parse] puts around them. *)
Inductive error :=
| header_too_short
| name_extends_past_data
| invalid_compression_pointer
| compression_loop_detected
| label_extends_past_data
| question_too_short
| resource_record_too_short
| rdata_too_short
| in_header (e : error)
| in_question (i : nat) (e : error)
| in_answer (i : nat) (e : error)
| in_authority (i : nat) (e : error)
| in_additional (i : nat) (e : error).

Definition parseHeader (data : list byte) : result error (Header * nat) :=
  if (length data <? 12)%nat then Err header_too_short
  else
    let* id := try (s ← slice data 0 2; Uint16 s) in
    let* fl := try (s ← slice data 2 4; Uint16 s) in
    let* qd := try (s ← slice data 4 6; Uint16 s) in
    let* an := try (s ← slice data 6 8; Uint16 s) in
    let* ns := try (s ← slice data 8 10; Uint16 s) in
    let* ar := try (s ← slice data 10 12; Uint16 s) in
    Ok (mkHeader id fl qd an ns ar, 12%nat).

(** [parseName]: one unit of fuel is spent per iteration of the [for]
    loop and per recursive call.  The arguments [labels] and [visited]
    are the two locals of the Go function; a call starts with both empty
    (see [parseName] below), and so does the recursive call made when a
    compression pointer is followed.  The result carries the value of
    [p.pos] on return. *)
Fixpoint parseName_loop (fuel : nat) (data : list byte) (pos : nat)
    (labels : list (list byte)) (visited : gset nat)
    : result error (list byte * nat) :=
  match fuel with
  | O => Diverge
  | S fuel =>
    if (length data <=? pos)%nat then Err name_extends_past_data
    else
      let* b := try (index data pos) in
      let len := N_of_ascii b in
      if N.land len 0xC0 =? 0xC0 then
        if (length data <=? pos + 1)%nat then Err invalid_compression_pointer
        else
          let* v := try (s ← slice data pos (pos + 2); Uint16 s) in
          let offset := N.to_nat (N.land v 0x3FFF) in
          let pos := (pos + 2)%nat in
          if decide (offset ∈ visited) then Err compression_loop_detected
          else
            let visited := {[offset]} ∪ visited in
            let savedPos := pos in
            let* (rest, _) := parseName_loop fuel data offset [] ∅ in
            if (0 <? length labels)%nat
            then Ok (Join labels (str ".") ++ str "." ++ rest, savedPos)
            else Ok (rest, savedPos)
      else if len =? 0 then Ok (Join labels (str "."), (pos + 1)%nat)
      else
        let pos := (pos + 1)%nat in
        if (length data <? pos + N.to_nat len)%nat
        then Err label_extends_past_data
        else
          let* l := try (slice data pos (pos + N.to_nat len)) in
          parseName_loop fuel data (pos + N.to_nat len)%nat
                         (labels ++ [l]) visited
  end.

Definition parseName (fuel : nat) (data : list byte) (pos : nat)
    : result error (list byte * nat) :=
  parseName_loop fuel data pos [] ∅.

Definition parseQuestion (fuel : nat) (data : list byte) (pos : nat)
    : result error (Question * nat) :=
  let* (name, pos) := parseName fuel data pos in
  if (length data <? pos + 4)%nat then Err question_too_short
  else
    let* ty := try (s ← slice data pos (pos + 2); Uint16 s) in
    let* cl := try (s ← slice data (pos + 2) (pos + 4); Uint16 s) in
    Ok (mkQuestion name ty cl, (pos + 4)%nat).

(** [parseTXT]: every iteration of the loop advances [pos] by at least
    one, so [length data] iterations always suffice; when the fuel is
    spent the loop condition [pos < len(data)] is false as well. *)
Fixpoint parseTXT_loop (fuel : nat) (data : list byte) (pos : nat)
    (texts : list (list byte)) : result error (list (list byte)) :=
  match fuel with
  | O => Ok texts
  | S fuel =>
    if (pos <? length data)%nat then
      let* b := try (index data pos) in
      let len := N.to_nat (N_of_ascii b) in
      let pos := (pos + 1)%nat in
      if (length data <? pos + len)%nat then Ok texts
      else
        let* t := try (slice data pos (pos + len)) in
        parseTXT_loop fuel data (pos + len)%nat (texts ++ [t])
    else Ok texts
  end.

Definition parseTXT (data : list byte) : result error (list (list byte)) :=
  parseTXT_loop (length data) data 0 [].

(** [rr.Target, _ = p.parseName()]: the error is dropped and the target
    is then the empty string. *)
Definition parseTarget (fuel : nat) (data : list byte) (pos : nat)
    : result error (list byte) :=
  match parseName fuel data pos with
  | Ok (t, _) => Ok t
  | Err _ => Ok []
  | Panic => Panic
  | Diverge => Diverge
  end.

Definition parseResourceRecord (fuel : nat) (data : list byte) (pos : nat)
    : result error (ResourceRecord * nat) :=
  let* (name, pos) := parseName fuel data pos in
  if (length data <? pos + 10)%nat then Err resource_record_too_short
  else
    let* ty := try (s ← slice data pos (pos + 2); Uint16 s) in
    let* cl := try (s ← slice data (pos + 2) (pos + 4); Uint16 s) in
    let* ttl := try (s ← slice data (pos + 4) (pos + 8); Uint32 s) in
    let* rdlen := try (s ← slice data (pos + 8) (pos + 10); Uint16 s) in
    let pos := (pos + 10)%nat in
    if (length data <? pos + N.to_nat rdlen)%nat then Err rdata_too_short
    else
      let* rdata := try (slice data pos (pos + N.to_nat rdlen)) in
      let rr (address target : list byte) (priority : N)
             (text : list (list byte)) :=
        mkRR name ty cl ttl rdlen rdata address target priority text None in
      let* rr :=
        if ty =? TypeA then
          Ok (if rdlen =? 4 then rr rdata [] 0 [] else rr [] [] 0 [])
        else if ty =? TypeAAAA then
          Ok (if rdlen =? 16 then rr rdata [] 0 [] else rr [] [] 0 [])
        else if (ty =? TypeCNAME) || (ty =? TypeNS) then
          let savedPos := pos in
          let* target := parseTarget fuel data pos in
          Ok (rr [] target 0 [])
        else if ty =? TypeMX then
          if 2 <=? rdlen then
            let* priority := try (s ← slice rdata 0 2; Uint16 s) in
            let savedPos := pos in
            let* target := parseTarget fuel data (savedPos + 2) in
            Ok (rr [] target priority [])
          else Ok (rr [] [] 0 [])
        else if ty =? TypeTXT then
          let* text := parseTXT rdata in
          Ok (rr [] [] 0 text)
        else Ok (rr [] [] 0 []) in
      Ok (rr, (pos + N.to_nat rdlen)%nat).

(** The four [for i := 0; i < int(count); i++] loops of [Parse]: [n]
    entries remain, [i] is the loop index, [wrap] the context added to an
    error. *)
Fixpoint parseEntries {A} (parse : nat -> result error (A * nat))
    (wrap : nat -> error -> error) (n i pos : nat)
    : result error (list A * nat) :=
  match n with
  | O => Ok ([], pos)
  | S n =>
    match parse pos with
    | Ok (a, pos) =>
        let* (rest, pos) := parseEntries parse wrap n (S i) pos in
        Ok (a :: rest, pos)
    | Err e => Err (wrap i e)
    | Panic => Panic
    | Diverge => Diverge
    end
  end.

Definition Parse (fuel : nat) (data : list byte) : result error Message :=
  match parseHeader data with
  | Err e => Err (in_header e)
  | Panic => Panic
  | Diverge => Diverge
  | Ok (h, pos) =>
    let* (qs, pos) :=
      parseEntries (parseQuestion fuel data) in_question
                   (N.to_nat (QDCount h)) 0 pos in
    let* (an, pos) :=
      parseEntries (parseResourceRecord fuel data) in_answer
                   (N.to_nat (ANCount h)) 0 pos in
    let* (ns, pos) :=
      parseEntries (parseResourceRecord fuel data) in_authority
                   (N.to_nat (NSCount h)) 0 pos in
    let* (ar, pos) :=
      parseEntries (parseResourceRecord fuel data) in_additional
                   (N.to_nat (ARCount h)) 0 pos in
    Ok (mkMessage h qs an ns ar)
  end.

(** *** builder.go *)

(** The [Builder] owns one byte slice, [b.data].  Every method changes it
    by one of two statements, [b.data = b.data[:0]] and
    [b.data = append(b.data, ...)]; a method is embedded as the sequence
    of these statements it executes, and [run] executes a sequence on the
    value of [b.data]. *)
Inductive action :=
| Reset
| Append (bs : list byte).

Definition step (data : list byte) (a : action) : list byte :=
  match a with
  | Reset => []
  | Append bs => data ++ bs
  end.

Definition run (prog : list action) (data : list byte) : list byte :=
  fold_left step prog data.

Definition encodeName (name : list byte) : list byte :=
  if bool_decide (name = str "") || bool_decide (name = str ".")
  then bytes [0]
  else
    let name := TrimSuffix name (str ".") in
    let labels := Split name "."%char in
    fold_left
      (fun result label =>
         let label := if (63 <? length label)%nat then firstn 63 label
                      else label in
         (result ++ [byte_of_nat (length label)]) ++ label)
      labels [] ++ bytes [0].

Definition encodeTXT (texts : list (list byte)) : list byte :=
  fold_left
    (fun result text =>
       let text := if (255 <? length text)%nat then firstn 255 text
                   else text in
       (result ++ [byte_of_nat (length text)]) ++ text)
    texts [].

Definition encodeSOA (soa : SOA) : list byte :=
  (encodeName (MName soa) ++ encodeName (RName soa)) ++
  (PutUint32 (Serial soa) ++ PutUint32 (Refresh soa) ++
   PutUint32 (Retry soa) ++ PutUint32 (Expire soa) ++
   PutUint32 (Minimum soa)).

Definition buildRData (rr : ResourceRecord) : list byte :=
  if Type_ rr =? TypeA then To4 (Address rr)
  else if Type_ rr =? TypeAAAA then To16 (Address rr)
  else if (Type_ rr =? TypeCNAME) || (Type_ rr =? TypeNS)
  then encodeName (Target rr)
  else if Type_ rr =? TypeMX
  then PutUint16 (Priority rr) ++ encodeName (Target rr)
  else if Type_ rr =? TypeTXT then encodeTXT (Text rr)
  else if Type_ rr =? TypeSOA then
    match SOAData rr with
    | Some soa => encodeSOA soa
    | None => RData rr
    end
  else RData rr.

(** [uint16(len(x))]. *)
Definition len16 {A} (l : list A) : N := N.of_nat (length l) mod 2 ^ 16.

Definition writeUint16 (v : N) : list action := [Append (PutUint16 v)].
Definition writeUint32 (v : N) : list action := [Append (PutUint32 v)].
Definition writeName (name : list byte) : list action :=
  [Append (encodeName name)].

Definition writeHeader (h : Header) : list action :=
  writeUint16 (ID h) ++ writeUint16 (Flags h) ++ writeUint16 (QDCount h) ++
  writeUint16 (ANCount h) ++ writeUint16 (NSCount h) ++
  writeUint16 (ARCount h).

Definition writeQuestion (q : Question) : list action :=
  writeName (QName q) ++ writeUint16 (QType q) ++ writeUint16 (QClass q).

Definition writeResourceRecord (rr : ResourceRecord) : list action :=
  writeName (Name rr) ++ writeUint16 (Type_ rr) ++ writeUint16 (Class rr) ++
  writeUint32 (TTL rr) ++
  (let rdata := buildRData rr in
   writeUint16 (len16 rdata) ++ [Append rdata]).

Definition BuildResponse_prog (query : Message)
    (answers authority : list ResourceRecord) : list action :=
  let header :=
    mkHeader (ID (Hdr query)) (N.lor FlagQR FlagAA)
             (len16 (Questions query)) (len16 answers) (len16 authority) 0 in
  let header :=
    if negb (N.land (Flags (Hdr query)) FlagRD =? 0)
    then mkHeader (ID header) (N.lor (Flags header) FlagRD) (QDCount header)
                  (ANCount header) (NSCount header) (ARCount header)
    else header in
  [Reset] ++ writeHeader header ++
  flat_map writeQuestion (Questions query) ++
  flat_map writeResourceRecord answers ++
  flat_map writeResourceRecord authority.

Definition BuildErrorResponse_prog (query : Message) (rcode : N)
    : list action :=
  let header :=
    mkHeader (ID (Hdr query)) (N.lor (N.lor FlagQR FlagAA) rcode)
             (len16 (Questions query)) 0 0 0 in
  [Reset] ++ writeHeader header ++
  flat_map writeQuestion (Questions query).

(** A call on a builder whose buffer holds [data]: the bytes returned
    (they are also the new contents of the buffer). *)
Definition BuildResponse (data : list byte) (query : Message)
    (answers authority : list ResourceRecord) : list byte :=
  run (BuildResponse_prog query answers authority) data.

Definition BuildErrorResponse (data : list byte) (query : Message)
    (rcode : N) : list byte :=
  run (BuildErrorResponse_prog query rcode) data.

Definition NewBuilder : list byte := [].

(** *** zone.go *)

Record Zone := mkZone {
  Zone_Name : list byte;
  Zone_Records : gmap (list byte) (list ResourceRecord);
  Zone_SOA : option SOA }.

Definition NewZone (name : list byte) : Zone :=
  mkZone (ToLower name) ∅ None.

Definition recordKey (name : list byte) (qtype : N) : list byte :=
  ToLower name ++ str ":" ++ Itoa qtype.

Definition AddRecord (z : Zone) (rr : ResourceRecord) : Zone :=
  let key := recordKey (Name rr) (Type_ rr) in
  let records :=
    <[key := default [] (Zone_Records z !! key) ++ [rr]]> (Zone_Records z) in
  mkZone (Zone_Name z) records
         (if (Type_ rr =? TypeSOA) && bool_decide (SOAData rr ≠ None)
          then SOAData rr else Zone_SOA z).

Definition Lookup (z : Zone) (name : list byte) (qtype : N)
    : list ResourceRecord :=
  let name := ToLower name in
  let key := recordKey name qtype in
  match Zone_Records z !! key with
  | Some records => records
  | None =>
    if (qtype =? TypeA) || (qtype =? TypeAAAA) then
      let cnameKey := recordKey name TypeCNAME in
      match Zone_Records z !! cnameKey with
      | Some cnames => cnames
      | None => []
      end
    else []
  end.

Definition HasName (z : Zone) (name : list byte) : bool :=
  let name := ToLower name in
  existsb (fun kv => HasPrefix (fst kv) (name ++ str ":"))
          (map_to_list (Zone_Records z)).

Definition IsAuthoritative (z : Zone) (name : list byte) : bool :=
  let name := ToLower name in
  let zoneName := ToLower (Zone_Name z) in
  bool_decide (name = zoneName) || HasSuffix name (str "." ++ zoneName).

(** *** zone.go: the zone-file loader *)

Definition StringToType (s : list byte) : N :=
  if bool_decide (s = str "A") then TypeA
  else if bool_decide (s = str "AAAA") then TypeAAAA
  else if bool_decide (s = str "CNAME") then TypeCNAME
  else if bool_decide (s = str "MX") then TypeMX
  else if bool_decide (s = str "NS") then TypeNS
  else if bool_decide (s = str "TXT") then TypeTXT
  else if bool_decide (s = str "SOA") then TypeSOA
  else 0.

(** [TypeToString]; [fmt.Sprintf("TYPE%d", t)] is ["TYPE"] followed by the
    decimal digits of [t]. *)
Definition TypeToString (t : N) : list byte :=
  if t =? TypeA then str "A"
  else if t =? TypeAAAA then str "AAAA"
  else if t =? TypeCNAME then str "CNAME"
  else if t =? TypeMX then str "MX"
  else if t =? TypeNS then str "NS"
  else if t =? TypeTXT then str "TXT"
  else if t =? TypeSOA then str "SOA"
  else str "TYPE" ++ Itoa t.

(** [s[:len(s)-1]]. *)
Definition dropLast (s : list byte) : list byte := firstn (length s - 1) s.

(** [parseTTL]: the value and the error; the product is a [uint32]
    product and wraps. *)
Definition parseTTL (s : list byte) : N * option NumError :=
  let s := ToLower s in
  let '(multiplier, s) :=
    if HasSuffix s (str "w") then (604800, dropLast s)
    else if HasSuffix s (str "d") then (86400, dropLast s)
    else if HasSuffix s (str "h") then (3600, dropLast s)
    else if HasSuffix s (str "m") then (60, dropLast s)
    else if HasSuffix s (str "s") then (1, dropLast s)
    else (1, s) in
  match ParseUint s 32 with
  | (_, Some e) => (0, Some e)
  | (val, None) => ((val mod 2 ^ 32 * multiplier) mod 2 ^ 32, None)
  end.

Definition parseUint32 (s : list byte) : N * option NumError :=
  let '(val, e) := ParseUint s 32 in (val mod 2 ^ 32, e).

Definition isTTL (s : list byte) : bool :=
  match parseTTL s with (_, None) => true | _ => false end.

Definition isClass (s : list byte) : bool :=
  bool_decide (ToUpper s = str "IN") || bool_decide (ToUpper s = str "CH").

Definition isClassOrType (s : list byte) : bool :=
  isClass s || negb (StringToType (ToUpper s) =? 0).

Definition normalizeSOAName (name origin : list byte) : list byte :=
  if bool_decide (name = str "@") then origin
  else if negb (HasSuffix name (str ".")) then name ++ str "." ++ origin
  else TrimSuffix name (str ".").

Inductive line_error :=
| too_few_fields
| missing_type
| unknown_type
| missing_rdata
| invalid_IPv4
| invalid_IPv6
| MX_needs_priority_and_target
| invalid_MX_priority.

Inductive load_error :=
| open_failed
| scan_failed
| invalid_TTL (lineNum : nat) (e : NumError).

(** [fields[i]] where the source has already checked the index; [None]
    is the panic. *)
Definition field (fields : list (list byte)) (i : nat) : option (list byte) :=
  nth_error fields i.

Section loader.

(** [net.ParseIP] belongs to Go's library; the loader is embedded over
    any such function.  It returns the nil slice for text that is not
    an address. *)
Variable ParseIP : list byte -> list byte.

(** [parseZoneLine] returns the record and the owner name; on an error
    the caller uses neither. *)
Definition parseZoneLine (line origin currentName : list byte)
    (defaultTTL : N)
    : result line_error (ResourceRecord * list byte) :=
  let fields := Fields line in
  if (length fields <? 3)%nat then Err too_few_fields
  else
    let idx := 0%nat in
    let* fld := try (field fields idx) in
    let '(name, idx) :=
      if negb (isClassOrType fld) && negb (isTTL fld) then
        (if bool_decide (fld = str "@") then origin
         else if negb (HasSuffix fld (str ".")) then fld ++ str "." ++ origin
         else TrimSuffix fld (str "."),
         S idx)
      else (currentName, idx) in
    let ttl := defaultTTL in
    let '(ttl, idx) :=
      match field fields idx with
      | Some f => if (idx <? length fields)%nat && isTTL f
                  then (fst (parseTTL f), S idx) else (ttl, idx)
      | None => (ttl, idx)
      end in
    let idx :=
      match field fields idx with
      | Some f => if (idx <? length fields)%nat && isClass f
                  then S idx else idx
      | None => idx
      end in
    if (length fields <=? idx)%nat then Err missing_type
    else
      let* tyf := try (field fields idx) in
      let ty := StringToType (ToUpper tyf) in
      if ty =? 0 then Err unknown_type
      else
        let idx := S idx in
        if (length fields <=? idx)%nat then Err missing_rdata
        else
          let rdata := Join (skipn idx fields) (str " ") in
          let rr (address target : list byte) (priority : N)
                 (text : list (list byte)) (soa : option SOA) :=
            mkRR name ty ClassIN ttl 0 [] address target priority text soa in
          let qualify (target : list byte) :=
            if negb (HasSuffix target (str "."))
            then target ++ str "." ++ origin
            else TrimSuffix target (str ".") in
          if ty =? TypeA then
            let ip := ParseIP rdata in
            if bool_decide (ip = []) || bool_decide (To4 ip = [])
            then Err invalid_IPv4
            else Ok (rr (To4 ip) [] 0 [] None, name)
          else if ty =? TypeAAAA then
            let ip := ParseIP rdata in
            if bool_decide (ip = []) || bool_decide (To16 ip = [])
               || negb (bool_decide (To4 ip = []))
            then Err invalid_IPv6
            else Ok (rr (To16 ip) [] 0 [] None, name)
          else if (ty =? TypeCNAME) || (ty =? TypeNS) then
            let* target := try (field fields idx) in
            let target :=
              if bool_decide (target = str "@") then origin
              else qualify target in
            Ok (rr [] target 0 [] None, name)
          else if ty =? TypeMX then
            if (length fields <=? idx + 1)%nat
            then Err MX_needs_priority_and_target
            else
              let* pf := try (field fields idx) in
              match ParseUint pf 16 with
              | (_, Some _) => Err invalid_MX_priority
              | (priority, None) =>
                let* target := try (field fields (idx + 1)) in
                Ok (rr [] (qualify target) (priority mod 2 ^ 16) [] None,
                    name)
              end
          else if ty =? TypeTXT then
            let text := Trim rdata [ascii_of_N 34] in
            Ok (rr [] [] 0 [text] None, name)
          else if ty =? TypeSOA then
            if (idx + 7 <=? length fields)%nat then
              let* f0 := try (field fields idx) in
              let* f1 := try (field fields (idx + 1)) in
              let* f2 := try (field fields (idx + 2)) in
              let* f3 := try (field fields (idx + 3)) in
              let* f4 := try (field fields (idx + 4)) in
              let* f5 := try (field fields (idx + 5)) in
              let* f6 := try (field fields (idx + 6)) in
              let soa :=
                mkSOA (normalizeSOAName f0 origin)
                      (normalizeSOAName f1 origin)
                      (fst (parseUint32 f2)) (fst (parseTTL f3))
                      (fst (parseTTL f4)) (fst (parseTTL f5))
                      (fst (parseTTL f6)) in
              Ok (rr [] [] 0 [] (Some soa), name)
            else Ok (rr [] [] 0 [] None, name)
          else Ok (rr [] [] 0 [] None, name).

(** The locals of [LoadZoneFile] that live across lines.  [zone] is the
    pointer [*Zone], nil until the first [$ORIGIN] or record. *)
Record loader := mkLoader {
  zone : option Zone;
  origin : list byte;
  defaultTTL : N;
  currentName : list byte;
  lineNum : nat }.

Definition initial : loader := mkLoader None [] 3600 [] 0.

Definition tick (st : loader) : loader :=
  mkLoader (zone st) (origin st) (defaultTTL st) (currentName st)
           (S (lineNum st)).

(** One line read by the scanner.  [skipping] is true inside the inner
    loop that reads up to the line with the closing parenthesis. *)
Definition scanLine (text : list byte) (skipping : bool) (st : loader)
    : result load_error (bool * loader) :=
  let st := tick st in
  if skipping then Ok (negb (Contains text (str ")")), st)
  else
    let line := TrimSpace text in
    if bool_decide (line = []) || HasPrefix line (str ";")
    then Ok (false, st)
    else if HasPrefix line (str "$ORIGIN") then
      let origin :=
        TrimSuffix (TrimSpace (TrimPrefix line (str "$ORIGIN"))) (str ".") in
      let zone :=
        match zone st with
        | None => Some (NewZone origin)
        | Some z => Some z
        end in
      Ok (false, mkLoader zone origin (defaultTTL st) (currentName st)
                          (lineNum st))
    else if HasPrefix line (str "$TTL") then
      let ttlStr := TrimSpace (TrimPrefix line (str "$TTL")) in
      match parseTTL ttlStr with
      | (_, Some e) => Err (invalid_TTL (lineNum st) e)
      | (ttl, None) =>
        Ok (false, mkLoader (zone st) (origin st) ttl (currentName st)
                            (lineNum st))
      end
    else if Contains line (str "(") then Ok (true, st)
    else
      match parseZoneLine line (origin st) (currentName st)
                          (defaultTTL st) with
      | Err _ => Ok (false, st)
      | Panic => Panic
      | Diverge => Diverge
      | Ok (rr, name) =>
        let currentName :=
          if negb (bool_decide (name = [])) then name
          else currentName st in
        let z :=
          match zone st with
          | None => NewZone (origin st)
          | Some z => z
          end in
        Ok (false, mkLoader (Some (AddRecord z rr)) (origin st)
                            (defaultTTL st) currentName (lineNum st))
      end.

(** The scanning loop over the lines the scanner yields. *)
Fixpoint scan (lines : list (list byte)) (skipping : bool) (st : loader)
    : result load_error (bool * loader) :=
  match lines with
  | [] => Ok (skipping, st)
  | text :: lines =>
    let* (skipping, st) := scanLine text skipping st in
    scan lines skipping st
  end.

(** What [os.Open] and the [bufio.Scanner] deliver: the file cannot be
    opened, or it yields [lines] and then stops at the end of the file
    ([scanErr] false) or with an error. *)
Inductive file :=
| unreadable
| readable (lines : list (list byte)) (scanErr : bool).

(** The result is the pair [(zone, err)] of the source: [Ok None] is
    the return of a nil zone with a nil error. *)
Definition LoadZoneFile (f : file) : result load_error (option Zone) :=
  match f with
  | unreadable => Err open_failed
  | readable lines scanErr =>
    let* (_, st) := scan lines false initial in
    if scanErr then Err scan_failed else Ok (zone st)
  end.

End loader.

End dns.

(** ** cmd/dns-server/main.go *)

Module main.
Import Go dns.

Definition splitLabels (name : list byte) : list (list byte) :=
  let name := TrimSuffix name (str ".") in
  if bool_decide (name = []) then [] else Split name "."%char.

Definition joinLabels (labels : list (list byte)) : list byte :=
  Join labels (str ".").

(** The loop of [findZone]: [i] is the index and [n] the number of
    iterations left, [len(labels) - i]. *)
Fixpoint findZone_loop (zones : gmap (list byte) Zone)
    (labels : list (list byte)) (n i : nat) : option Zone :=
  match n with
  | O => None
  | S n =>
    let zoneName := joinLabels (skipn i labels) in
    match zones !! zoneName with
    | Some zone => Some zone
    | None => findZone_loop zones labels n (S i)
    end
  end.

Definition findZone (zones : gmap (list byte) Zone) (name : list byte)
    : option Zone :=
  let name := ToLower name in
  let labels := splitLabels name in
  findZone_loop zones labels (length labels) 0.

(** [handleQuery], up to the bytes it asks the builder for: [Ok None] is
    a return without a reply (no question), an error is a datagram that
    is dropped, [Ok (Some prog)] the call the handler makes on the
    server's builder, [s.builder]. *)
Definition handleQuery (zones : gmap (list byte) Zone) (fuel : nat)
    (data : list byte) : result error (option (list action)) :=
  let* query := Parse fuel data in
  match Questions query with
  | [] => Ok None
  | q :: _ =>
    match findZone zones (QName q) with
    | None => Ok (Some (BuildErrorResponse_prog query RcodeRefused))
    | Some zone =>
      let records := Lookup zone (QName q) (QType q) in
      if (length records =? 0)%nat && negb (HasName zone (QName q))
      then Ok (Some (BuildErrorResponse_prog query RcodeNameError))
      else
        let nsRecords := Lookup zone (Zone_Name zone) TypeNS in
        Ok (Some (BuildResponse_prog query records nsRecords))
    end
  end.

(** Two handler goroutines on the one builder of the server.  Each has
    the statements it still has to execute on [b.data]; when none is
    left its next step sends the contents of [b.data] to the client.
    A schedule says which goroutine takes the next step ([false] the
    first, [true] the second); every statement is taken as atomic.  The
    result is the final contents of [b.data] and the two goroutines. *)
Record goroutine := mkGoroutine {
  todo : list action;
  sent : option (list byte) }.

Definition advance (data : list byte) (g : goroutine)
    : list byte * goroutine :=
  match todo g with
  | a :: rest => (step data a, mkGoroutine rest (sent g))
  | [] =>
    (data, mkGoroutine [] (match sent g with
                           | None => Some data
                           | Some r => Some r
                           end))
  end.

Fixpoint interleave (schedule : list bool) (data : list byte)
    (g1 g2 : goroutine) : list byte * goroutine * goroutine :=
  match schedule with
  | [] => (data, g1, g2)
  | false :: schedule =>
    let '(data, g1) := advance data g1 in interleave schedule data g1 g2
  | true :: schedule =>
    let '(data, g2) := advance data g2 in interleave schedule data g1 g2
  end.

(** The reply of a handler that runs alone on a builder holding [data]. *)
Definition alone (data : list byte) (prog : list action) : list byte :=
  run prog data.

(** *** Zone selection as the specification words it *)

(** The names probed for a question name: the name itself and then every
    suffix obtained by dropping one leading label at a time, down to the
    last label. *)
Fixpoint suffixes (labels : list (list byte)) : list (list (list byte)) :=
  match labels with
  | [] => []
  | l :: ls => (l :: ls) :: suffixes ls
  end.

Definition probes (name : list byte) : list (list byte) :=
  map joinLabels (suffixes (splitLabels (ToLower name))).


(** The zone of the first probe that matches. *)
Fixpoint first_match (zones : gmap (list byte) Zone)
    (names : list (list byte)) : option Zone :=
  match names with
  | [] => None
  | n :: names =>
    match zones !! n with
    | Some z => Some z
    | None => first_match zones names
    end
  end.

(** [NewServer] starts with no zone.  [LoadZone] registers the zone read
    from the file under its name; the error of [LoadZoneFile] is
    returned wrapped, and [zone.Name] on the nil zone that [LoadZoneFile]
    returns with a nil error is the panic. *)
Definition NewServer : gmap (list byte) Zone := ∅.

Definition LoadZone (ParseIP : list byte -> list byte)
    (zones : gmap (list byte) Zone) (f : file)
    : result load_error (gmap (list byte) Zone) :=
  match LoadZoneFile ParseIP f with
  | Ok (Some zone) => Ok (<[Zone_Name zone := zone]> zones)
  | Ok None => Panic
  | Err e => Err e
  | Panic => Panic
  | Diverge => Diverge
  end.

End main.

(** * Properties of the embedded program *)

Import Go dns main.

(** ** Bytes and big-endian numbers *)

Section bytes_facts.

Lemma N_of_byte_of_N n : N_of_ascii (byte_of_N n) = n mod 2 ^ 8.
Proof. unfold byte_of_N. apply N_ascii_embedding. by apply N.mod_lt. Qed.

Lemma N_of_ascii_mod b : N_of_ascii b = N_of_ascii b mod 2 ^ 8.
Proof. symmetry. apply N.mod_small, N_ascii_bounded. Qed.

Ltac bits_step :=
  first [ rewrite N.lor_spec
        | rewrite N.mod_pow2_bits_low by lia
        | rewrite N.mod_pow2_bits_high by lia
        | rewrite N.shiftl_spec_low by lia
        | rewrite N.shiftl_spec_high' by lia
        | rewrite N.shiftr_spec'
        | rewrite orb_false_r
        | rewrite orb_false_l ].

Ltac bits := repeat bits_step; try done; try (f_equal; lia).

Lemma Uint16_PutUint16 v rest : Uint16 (PutUint16 v ++ rest) = Some (v mod 2 ^ 16).
Proof.
  cbn [PutUint16 app Uint16]. f_equal. rewrite !N_of_byte_of_N.
  apply N.bits_inj. intros n.
  destruct (N.lt_ge_cases n 8); [bits|].
  destruct (N.lt_ge_cases n 16); bits.
Qed.

Lemma Uint32_PutUint32 v rest : Uint32 (PutUint32 v ++ rest) = Some (v mod 2 ^ 32).
Proof.
  cbn [PutUint32 app Uint32]. f_equal. rewrite !N_of_byte_of_N.
  apply N.bits_inj. intros n.
  destruct (N.lt_ge_cases n 8); [bits|].
  destruct (N.lt_ge_cases n 16); [bits|].
  destruct (N.lt_ge_cases n 24); [bits|].
  destruct (N.lt_ge_cases n 32); bits.
Qed.

Lemma Uint16_bound s v : Uint16 s = Some v -> v < 2 ^ 16.
Proof.
  destruct s as [|b0 [|b1 s]]; try done. cbn [Uint16]. intros [= <-].
  rewrite (N_of_ascii_mod b0), (N_of_ascii_mod b1).
  match goal with |- ?x < _ => replace x with (x mod 2 ^ 16) end.
  { by apply N.mod_lt. }
  apply N.bits_inj. intros n.
  destruct (N.lt_ge_cases n 16); [bits|].
  bits. 
Qed.

Lemma Uint32_bound s v : Uint32 s = Some v -> v < 2 ^ 32.
Proof.
  destruct s as [|b0 [|b1 [|b2 [|b3 s]]]]; try done. cbn [Uint32]. intros [= <-].
  rewrite (N_of_ascii_mod b0), (N_of_ascii_mod b1), (N_of_ascii_mod b2),
    (N_of_ascii_mod b3).
  match goal with |- ?x < _ => replace x with (x mod 2 ^ 32) end.
  { by apply N.mod_lt. }
  apply N.bits_inj. intros n.
  destruct (N.lt_ge_cases n 32); bits.
Qed.

Lemma land_pow2_eq0 a n : (N.land a (2 ^ n) =? 0) = negb (N.testbit a n).
Proof.
  destruct (N.testbit a n) eqn:Ha; cbn [negb].
  - apply N.eqb_neq. intros H.
    assert (N.testbit (N.land a (2 ^ n)) n = false) by (by rewrite H, N.bits_0).
    rewrite N.land_spec, Ha, N.pow2_bits_true in *. done.
  - apply N.eqb_eq, N.bits_inj. intros m.
    rewrite N.land_spec, N.pow2_bits_eqb, N.bits_0.
    destruct (N.eqb_spec n m) as [<-|]; [by rewrite Ha|apply andb_false_r].
Qed.

End bytes_facts.

(** ** Name decoding: compression pointers *)

Section pointers.

(** What [parseName] does at a compression pointer, whatever the labels
    read so far. *)
Lemma parseName_loop_pointer fuel data pos labels visited b v :
  index data pos = Some b ->
  N.land (N_of_ascii b) 0xC0 = 0xC0 ->
  (pos + 1 < length data)%nat ->
  (s ← slice data pos (pos + 2); Uint16 s) = Some v ->
  parseName_loop (S fuel) data pos labels visited =
    let offset := N.to_nat (N.land v 0x3FFF) in
    if decide (offset ∈ visited) then Err compression_loop_detected
    else
      let* (rest, _) := parseName_loop fuel data offset [] ∅ in
      if (0 <? length labels)%nat
      then Ok (Join labels (str ".") ++ str "." ++ rest, (pos + 2)%nat)
      else Ok (rest, (pos + 2)%nat).
Proof.
  intros Hb Hptr Hlen Hv. cbn [parseName_loop].
  destruct (Nat.leb_spec (length data) pos) as [?|_]; [lia|].
  rewrite Hb. cbn [try bind]. rewrite Hptr, N.eqb_refl.
  destruct (Nat.leb_spec (length data) (pos + 1)) as [?|_]; [lia|].
  rewrite Hv. reflexivity.
Qed.

(** Every call of [parseName] starts with an empty [visited], and the
    only statement that adds to it is followed by a return: the test
    [visited[offset]] never succeeds. *)
Lemma compression_loop_never_detected fuel data pos labels :
  parseName_loop fuel data pos labels ∅ <> Err compression_loop_detected.
Proof.
  revert pos labels. induction fuel as [|fuel IH]; intros pos labels; [done|].
  cbn [parseName_loop].
  destruct (length data <=? pos)%nat; [done|].
  destruct (index data pos) as [b|]; cbn [try bind]; [|done].
  destruct (N.land (N_of_ascii b) 192 =? 192).
  - destruct (length data <=? pos + 1)%nat; [done|].
    destruct (s ← slice data pos (pos + 2); Uint16 s) as [v|];
      cbn [try bind]; [|done].
    destruct (decide _) as [Hin|_]; [set_solver|].
    specialize (IH (N.to_nat (N.land v 16383)) []).
    destruct (parseName_loop fuel data _ [] ∅) as [[rest p]|e| |];
      cbn [bind]; [|congruence|done|done].
    by destruct (0 <? length labels)%nat.
  - destruct (N_of_ascii b =? 0); [done|].
    destruct (length data <? pos + 1 + N.to_nat (N_of_ascii b))%nat; [done|].
    destruct (slice data _ _); cbn [try bind]; [apply IH|done].
Qed.

(** A datagram of 14 bytes: a header announcing one question, and a
    question name that is a pointer to its own offset, 12. *)
Definition self_pointer : list byte :=
  bytes [0x12; 0x34; 0x01; 0x00; 0; 1; 0; 0; 0; 0; 0; 0; 0xC0; 0x0C].

(** A cycle of two pointers: offset 12 points to 14 and 14 to 12. *)
Definition pointer_cycle : list byte :=
  bytes [0x12; 0x34; 0x01; 0x00; 0; 1; 0; 0; 0; 0; 0; 0;
         0xC0; 0x0E; 0xC0; 0x0C].

Lemma parseName_self_pointer fuel labels :
  parseName_loop fuel self_pointer 12 labels ∅ = Diverge.
Proof.
  revert labels. induction fuel as [|fuel IH]; intros labels; [done|].
  erewrite parseName_loop_pointer; [|reflexivity|reflexivity|cbn; lia|reflexivity].
  cbn zeta. destruct (decide _) as [Hin|_]; [set_solver|].
  change (N.to_nat (N.land 49164 16383)) with 12%nat.
  by rewrite IH.
Qed.

Lemma parseName_pointer_cycle fuel :
  (forall labels, parseName_loop fuel pointer_cycle 12 labels ∅ = Diverge) /\
  (forall labels, parseName_loop fuel pointer_cycle 14 labels ∅ = Diverge).
Proof.
  induction fuel as [|fuel [IH12 IH14]]; [done|].
  split; intros labels.
  - erewrite parseName_loop_pointer; [|reflexivity|reflexivity|cbn; lia|reflexivity].
    cbn zeta. destruct (decide _) as [Hin|_]; [set_solver|].
    change (N.to_nat (N.land 49166 16383)) with 14%nat.
    by rewrite IH14.
  - erewrite parseName_loop_pointer; [|reflexivity|reflexivity|cbn; lia|reflexivity].
    cbn zeta. destruct (decide _) as [Hin|_]; [set_solver|].
    change (N.to_nat (N.land 49164 16383)) with 12%nat.
    by rewrite IH12.
Qed.

(** C1. On a datagram whose question name is a pointer to itself, or the
    first of two pointers that point to each other, [parseName] and
    [Parse] return nothing at all, whatever the fuel: the recursion never
    ends, and no error is returned.  The claim asks for a failure. *)
Theorem C1_pointer_loop_never_returns fuel :
  parseName fuel self_pointer 12 = Diverge /\
  Parse fuel self_pointer = Diverge /\
  parseName fuel pointer_cycle 12 = Diverge /\
  Parse fuel pointer_cycle = Diverge.
Proof.
  assert (Hs : parseName fuel self_pointer 12 = Diverge)
    by apply parseName_self_pointer.
  assert (Hc : parseName fuel pointer_cycle 12 = Diverge)
    by apply parseName_pointer_cycle.
  repeat split; try done.
  - unfold Parse. change (parseHeader self_pointer)
      with (Ok (E:=error) (mkHeader 0x1234 0x100 1 0 0 0, 12%nat)).
    cbn [QDCount]. change (N.to_nat 1) with 1%nat. cbn [parseEntries].
    unfold parseQuestion. by rewrite Hs.
  - unfold Parse. change (parseHeader pointer_cycle)
      with (Ok (E:=error) (mkHeader 0x1234 0x100 1 0 0 0, 12%nat)).
    cbn [QDCount]. change (N.to_nat 1) with 1%nat. cbn [parseEntries].
    unfold parseQuestion. by rewrite Hc.
Qed.

End pointers.

(** ** Name decoding: labels *)

Section labels.

Lemma slice_Some data lo hi :
  (lo <= hi)%nat -> (hi <= length data)%nat ->
  slice data lo hi = Some (firstn (hi - lo) (skipn lo data)).
Proof.
  intros Hlo Hhi. unfold slice.
  destruct (Nat.leb_spec lo hi); [|lia].
  destruct (Nat.leb_spec hi (length data)); [done|lia].
Qed.

(** A label of 64 bytes: the length octet 0x40 has the top bits 01. *)
Definition long_label : list byte :=
  bytes [0x40] ++ repeat "a"%char 64 ++ bytes [0].

(** C4, as the claim states it, fails: a length octet of 64, whose top
    two bits are 01, is accepted and a label of 64 bytes is returned. *)
Lemma C4_counterexample :
  index long_label 0 = Some (byte_of_N 0x40) /\
  N.shiftr (N_of_ascii (byte_of_N 0x40)) 6 = 1 /\
  63 < N_of_ascii (byte_of_N 0x40) /\
  parseName 2 long_label 0 = Ok (repeat "a"%char 64, 66%nat).
Proof. vm_compute. done. Qed.

(** C4, amended.  A length octet that is not zero and whose top two bits
    are not both set (00, 01 or 10: a value from 1 to 191) is read as a
    label of that many bytes.  The only failure is a label that extends
    past the buffer; otherwise the label is accepted and decoding goes
    on behind it. *)
Theorem C4_label_octet fuel data pos labels visited b :
  index data pos = Some b ->
  N.land (N_of_ascii b) 0xC0 <> 0xC0 ->
  N_of_ascii b <> 0 ->
  parseName_loop (S fuel) data pos labels visited =
    let len := N.to_nat (N_of_ascii b) in
    if (length data <? pos + 1 + len)%nat then Err label_extends_past_data
    else parseName_loop fuel data (pos + 1 + len)
           (labels ++ [firstn len (skipn (pos + 1) data)]) visited.
Proof.
  intros Hb Hptr Hnz. cbn [parseName_loop].
  assert (pos < length data)%nat by (apply nth_error_Some; unfold index in Hb; congruence).
  destruct (Nat.leb_spec (length data) pos) as [?|_]; [lia|].
  rewrite Hb. cbn [try bind].
  destruct (N.eqb_spec (N.land (N_of_ascii b) 192) 192); [done|].
  destruct (N.eqb_spec (N_of_ascii b) 0); [done|].
  cbn zeta.
  destruct (Nat.ltb_spec (length data) (pos + 1 + N.to_nat (N_of_ascii b)));
    [done|].
  rewrite slice_Some by lia. cbn [try bind].
  by replace (pos + 1 + N.to_nat (N_of_ascii b) - (pos + 1))%nat
    with (N.to_nat (N_of_ascii b)) by lia.
Qed.

Lemma C4_label_octet_witness :
  parseName_loop 2 (bytes [3] ++ str "com" ++ bytes [0]) 0 [] ∅ =
    parseName_loop 1 (bytes [3] ++ str "com" ++ bytes [0]) 4 [str "com"] ∅.
Proof.
  apply (C4_label_octet 1 (bytes [3] ++ str "com" ++ bytes [0]) 0 [] ∅
           (byte_of_N 3)); [reflexivity | by vm_compute | by vm_compute].
Defined.

End labels.

(** ** Zone selection *)

Section zone_selection.

Implicit Types zones : gmap (list byte) Zone.

Lemma findZone_loop_suffixes zones pre labels :
  findZone_loop zones (pre ++ labels) (length labels) (length pre) =
    first_match zones (map joinLabels (suffixes labels)).
Proof.
  revert pre. induction labels as [|l labels IH]; intros pre; [done|].
  cbn [length findZone_loop suffixes map first_match].
  rewrite drop_app_length.
  destruct (zones !! joinLabels (l :: labels)); [done|].
  specialize (IH (pre ++ [l])).
  rewrite <- app_assoc, length_app in IH. cbn [length app] in IH.
  by rewrite Nat.add_1_r in IH.
Qed.

Example probes_of_a_b_c_example_com :
  probes (str "a.b.c.Example.COM") =
    [str "a.b.c.example.com"; str "b.c.example.com"; str "c.example.com";
     str "example.com"; str "com"].
Proof. reflexivity. Qed.



End zone_selection.

(** ** The zone store *)

Section zone_store.

Implicit Types (z : Zone) (rr r : ResourceRecord) (rs : list ResourceRecord).

(** The zone a sequence of [AddRecord] calls builds from [NewZone]. *)
Definition buildZone (origin : list byte) rs : Zone :=
  fold_left AddRecord rs (NewZone origin).

(** The records of [rs], in order, whose owner name is [name] up to case
    and whose type is [t]. *)
Definition records_at rs (name : list byte) (t : N) : list ResourceRecord :=
  filter (λ r, ToLower (Name r) = ToLower name ∧ Type_ r = t) rs.

Lemma toLower_idemp c : toLower (toLower c) = toLower c.
Proof. by destruct c as [[] [] [] [] [] [] [] []]. Qed.

Lemma ToLower_idemp s : ToLower (ToLower s) = ToLower s.
Proof.
  unfold ToLower. rewrite map_map. apply map_ext. apply toLower_idemp.
Qed.

Lemma digits_no_colon d : ":"%char ∉ digits d.
Proof.
  induction d; cbn [digits]; [apply not_elem_of_nil|..];
    (apply not_elem_of_cons; split; [discriminate|assumption]).
Qed.

Lemma digits_inj d d' : digits d = digits d' -> d = d'.
Proof.
  revert d'.
  induction d; intros []; cbn [digits]; intros H;
    try discriminate H; try done; injection H as H; f_equal; auto.
Qed.

Lemma Itoa_inj n m : Itoa n = Itoa m -> n = m.
Proof. intros H. by apply Unsigned.to_uint_inj, digits_inj. Qed.

(** A string is split in one way only at a separator that its last part
    does not contain. *)
Lemma app_sep_inj (c : byte) a b d d' :
  c ∉ d -> c ∉ d' -> a ++ c :: d = b ++ c :: d' -> a = b /\ d = d'.
Proof.
  intros Hd Hd'. revert b. induction a as [|x a IH]; intros [|y b] H;
    cbn [app] in H.
  - by injection H.
  - injection H as -> ->. destruct Hd. apply elem_of_app. right. by left.
  - injection H as -> <-. destruct Hd'. apply elem_of_app. right. by left.
  - injection H as -> H. by destruct (IH _ H) as [-> ->].
Qed.

Lemma recordKey_inj n t n' t' :
  recordKey n t = recordKey n' t' <-> ToLower n = ToLower n' /\ t = t'.
Proof.
  unfold recordKey. split.
  - intros H. apply app_sep_inj in H; try apply digits_no_colon.
    destruct H as [? ?%Itoa_inj]. done.
  - by intros [-> ->].
Qed.

Lemma recordKey_ToLower n t : recordKey (ToLower n) t = recordKey n t.
Proof. unfold recordKey. by rewrite ToLower_idemp. Qed.

(** The entry of a key after a sequence of [AddRecord]: the records of the
    sequence with that name and type are appended, in order. *)
Lemma Zone_Records_fold rs z n t :
  Zone_Records (fold_left AddRecord rs z) !! recordKey n t =
    match records_at rs n t with
    | [] => Zone_Records z !! recordKey n t
    | l => Some (default [] (Zone_Records z !! recordKey n t) ++ l)
    end.
Proof.
  revert z. induction rs as [|r rs IH]; intros z; [done|].
  cbn [fold_left]. rewrite IH. unfold records_at.
  rewrite filter_cons. cbn [AddRecord Zone_Records].
  destruct (decide (ToLower (Name r) = ToLower n ∧ Type_ r = t)) as [Heq|Hne].
  - assert (Hk : recordKey (Name r) (Type_ r) = recordKey n t)
      by by apply recordKey_inj.
    rewrite Hk, lookup_insert_eq. cbn [default].
    destruct (filter _ rs) as [|r' l]; [done|].
    unfold id. by rewrite <- app_assoc.
  - rewrite lookup_insert_ne; [done|].
    by rewrite recordKey_inj.
Qed.

Lemma Zone_Records_buildZone origin rs n t :
  Zone_Records (buildZone origin rs) !! recordKey n t =
    match records_at rs n t with
    | [] => None
    | l => Some l
    end.
Proof.
  unfold buildZone. rewrite Zone_Records_fold.
  cbn [NewZone Zone_Records]. rewrite lookup_empty.
  by destruct (records_at rs n t).
Qed.

(** C6. In a zone built by [AddRecord], [Lookup] returns the records stored
    at the name (up to case) with the type asked for, in insertion order,
    when there are any; when there is none and the type asked for is A or
    AAAA, it returns exactly the CNAME records at the name; for every
    other type it returns direct matches only, so nothing when there is
    none. *)
Theorem C6_Lookup_CNAME_fallback origin rs name qtype :
  Lookup (buildZone origin rs) name qtype =
    match records_at rs name qtype with
    | [] =>
      if (qtype =? TypeA) || (qtype =? TypeAAAA)
      then records_at rs name TypeCNAME
      else []
    | direct => direct
    end.
Proof.
  unfold Lookup. rewrite !recordKey_ToLower, !Zone_Records_buildZone.
  destruct (records_at rs name qtype); [|done].
  destruct ((qtype =? TypeA) || (qtype =? TypeAAAA)); [|done].
  by destruct (records_at rs name TypeCNAME).
Qed.

(** Every record is filed under the key made of its lowercased owner name
    and its type. *)
Definition keys_ok z : Prop :=
  ∀ k l r, Zone_Records z !! k = Some l -> r ∈ l ->
           k = recordKey (Name r) (Type_ r).

Lemma keys_ok_NewZone origin : keys_ok (NewZone origin).
Proof. intros k l r H. cbn [NewZone Zone_Records] in H. by rewrite lookup_empty in H. Qed.

Lemma keys_ok_AddRecord z rr : keys_ok z -> keys_ok (AddRecord z rr).
Proof.
  intros Hz k l r. cbn [AddRecord Zone_Records].
  destruct (decide (recordKey (Name rr) (Type_ rr) = k)) as [<-|Hne].
  - rewrite lookup_insert_eq. intros [= <-] [Hr | ->%list_elem_of_singleton]%elem_of_app;
      [|done].
    destruct (Zone_Records z !! _) as [l|] eqn:Hl; cbn [default] in Hr.
    + by eapply Hz.
    + by apply elem_of_nil in Hr.
  - rewrite lookup_insert_ne by done. apply Hz.
Qed.

Lemma keys_ok_fold rs z : keys_ok z -> keys_ok (fold_left AddRecord rs z).
Proof.
  revert z. induction rs as [|r rs IH]; intros z Hz; [done|].
  cbn [fold_left]. by apply IH, keys_ok_AddRecord.
Qed.

Lemma keys_ok_buildZone origin rs : keys_ok (buildZone origin rs).
Proof. apply keys_ok_fold, keys_ok_NewZone. Qed.

Lemma AddRecord_buildZone origin rs rr :
  AddRecord (buildZone origin rs) rr = buildZone origin (rs ++ [rr]).
Proof. unfold buildZone. by rewrite fold_left_app. Qed.

End zone_store.

(** ** The zone-file loader *)

Section loader_facts.

Variable ParseIP : list byte -> list byte.

Implicit Types (st : loader) (z : Zone).

(** The zone of the loader, when there is one, is the result of a
    sequence of [AddRecord] calls on a [NewZone]. *)
Definition built (oz : option Zone) : Prop :=
  ∀ z, oz = Some z -> ∃ origin rs, z = buildZone origin rs.

Lemma built_None : built None.
Proof. by intros z. Qed.

Lemma built_NewZone origin : built (Some (NewZone origin)).
Proof. intros z [= <-]. by exists origin, []. Qed.

Lemma built_AddRecord oz z rr :
  built oz -> (oz = Some z \/ ∃ origin, oz = None /\ z = NewZone origin) ->
  built (Some (AddRecord z rr)).
Proof.
  intros Hb Hz z' [= <-]. destruct Hz as [->|(origin & -> & ->)].
  - destruct (Hb z eq_refl) as (origin & rs & ->).
    exists origin, (rs ++ [rr]). apply AddRecord_buildZone.
  - exists origin, [rr]. done.
Qed.

Lemma scanLine_built text sk st sk' st' :
  scanLine ParseIP text sk st = Ok (sk', st') ->
  built (zone st) -> built (zone st').
Proof.
  unfold scanLine. intros H Hb.
  repeat case_match; simplify_eq; cbn [zone tick] in *;
    try match goal with Hz : zone st = _ |- _ => rewrite Hz in Hb end;
    first [ done
          | apply built_NewZone
          | by eapply built_AddRecord; [exact Hb | left]
          | eapply (built_AddRecord None); [apply built_None | right; eauto] ].
Qed.

Lemma scan_built lines sk st sk' st' :
  scan ParseIP lines sk st = Ok (sk', st') ->
  built (zone st) -> built (zone st').
Proof.
  revert sk st. induction lines as [|text lines IH]; intros sk st H Hb.
  - by injection H as <- <-.
  - cbn [scan] in H.
    destruct (scanLine ParseIP text sk st) as [[sk1 st1]|e| |] eqn:H1;
      cbn [bind] in H; try done.
    eapply IH; [done|]. by eapply scanLine_built.
Qed.

Lemma LoadZoneFile_built f z :
  LoadZoneFile ParseIP f = Ok (Some z) ->
  ∃ origin rs, z = buildZone origin rs.
Proof.
  destruct f as [|lines scanErr]; [done|]. cbn [LoadZoneFile].
  destruct (scan ParseIP lines false initial) as [[sk st]|e| |] eqn:H;
    cbn [bind]; try done.
  destruct scanErr; [done|]. intros [= Hz].
  eapply scan_built in H; [|apply built_None]. by apply H.
Qed.

End loader_facts.

Section lowercase_storage.

(** The zones the claim is about: those built with [AddRecord], and those
    the loader returns. *)
Definition produced (z : Zone) : Prop :=
  (∃ origin rs, z = buildZone origin rs) \/
  (∃ ParseIP f, LoadZoneFile ParseIP f = Ok (Some z)).

(** The record of the test [TestZoneCaseInsensitive]. *)
Definition upper_case_record : ResourceRecord :=
  mkRR (str "WWW.Example.COM") TypeA ClassIN 3600 0 [] (bytes [1; 2; 3; 4])
       [] 0 [] None.

Definition upper_case_file : file :=
  readable [str "$ORIGIN Example.COM."; str "WWW IN A 1.2.3.4"] false.

(** C8, as the claim states it, fails: [AddRecord] stores the record as it
    is given, and the loader builds the owner name from the text of the
    line and of the [$ORIGIN] directive without lowercasing either.  The
    record found under the lowercase key has an owner name that is not
    lowercase. *)
Lemma C8_counterexample :
  Lookup (AddRecord (NewZone (str "Example.COM")) upper_case_record)
         (str "www.example.com") TypeA = [upper_case_record] /\
  LoadZoneFile ParseIPv4 upper_case_file =
    Ok (Some (buildZone (str "Example.COM") [upper_case_record])) /\
  Name upper_case_record = str "WWW.Example.COM" /\
  Name upper_case_record <> ToLower (Name upper_case_record).
Proof. repeat split; by vm_compute. Qed.

(** C8, amended.  In every zone built with [AddRecord] or returned by the
    loader, each key of the record map is the lowercased owner name of the
    records stored under it, joined by a colon with their type code in
    decimal. *)
Theorem C8_keys_are_lowercase z k l r :
  produced z ->
  Zone_Records z !! k = Some l -> r ∈ l ->
  k = ToLower (Name r) ++ str ":" ++ Itoa (Type_ r).
Proof.
  intros Hz Hk Hr.
  assert (∃ origin rs, z = buildZone origin rs) as (origin & rs & ->).
  { destruct Hz as [Hz|(ParseIP & f & Hf)]; [done|].
    by eapply LoadZoneFile_built. }
  by eapply keys_ok_buildZone.
Qed.

Lemma C8_keys_are_lowercase_witness :
  str "www.example.com:1" =
    ToLower (Name upper_case_record) ++ str ":" ++ Itoa (Type_ upper_case_record).
Proof.
  apply (C8_keys_are_lowercase
           (buildZone (str "Example.COM") [upper_case_record])
           (str "www.example.com:1") [upper_case_record] upper_case_record).
  - right. exists ParseIPv4, upper_case_file. vm_compute. reflexivity.
  - vm_compute. reflexivity.
  - apply list_elem_of_here.
Defined.

End lowercase_storage.

(** ** The builder: header emission *)

Section response_header.

Lemma run_app p1 p2 data : run (p1 ++ p2) data = run p2 (run p1 data).
Proof. apply fold_left_app. Qed.

(** The bytes a sequence of statements appends. *)
Definition appended (prog : list action) : list byte :=
  flat_map (λ a, match a with Reset => [] | Append bs => bs end) prog.

Definition appends_only (prog : list action) : Prop :=
  Forall (λ a, a <> Reset) prog.

Lemma run_appends_only prog data :
  appends_only prog -> run prog data = data ++ appended prog.
Proof.
  revert data. induction prog as [|a prog IH]; intros data Hp.
  - by rewrite app_nil_r.
  - apply Forall_cons in Hp as [Ha Hp]. destruct a as [|bs]; [done|].
    cbn [run fold_left step appended flat_map].
    unfold run in IH. rewrite IH by done. by rewrite <- app_assoc.
Qed.

Lemma appended_app p1 p2 : appended (p1 ++ p2) = appended p1 ++ appended p2.
Proof. apply flat_map_app. Qed.

Lemma appends_only_flat_map {A} (f : A -> list action) l :
  (∀ x, appends_only (f x)) -> appends_only (flat_map f l).
Proof.
  intros Hf. induction l as [|x l IH]; [constructor|].
  cbn [flat_map]. apply Forall_app. split; [apply Hf|apply IH].
Qed.

Lemma appends_only_writeQuestion q : appends_only (writeQuestion q).
Proof. repeat constructor; done. Qed.

Lemma appends_only_writeResourceRecord rr :
  appends_only (writeResourceRecord rr).
Proof. repeat constructor; done. Qed.

(** The header, the questions and the records a response is made of. *)
Definition response_header (query : Message)
    (answers authority : list ResourceRecord) : Header :=
  mkHeader (ID (Hdr query))
           (if negb (N.land (Flags (Hdr query)) FlagRD =? 0)
            then N.lor (N.lor FlagQR FlagAA) FlagRD
            else N.lor FlagQR FlagAA)
           (len16 (Questions query)) (len16 answers) (len16 authority) 0.

Definition header_bytes (h : Header) : list byte :=
  PutUint16 (ID h) ++ PutUint16 (Flags h) ++ PutUint16 (QDCount h) ++
  PutUint16 (ANCount h) ++ PutUint16 (NSCount h) ++ PutUint16 (ARCount h).

Lemma appended_writeHeader h : appended (writeHeader h) = header_bytes h.
Proof. reflexivity. Qed.

Lemma run_Reset prog data : run (Reset :: prog) data = run prog [].
Proof. reflexivity. Qed.

(** The output of [BuildResponse] does not depend on what the buffer of
    the builder held before the call. *)
Lemma BuildResponse_bytes data query answers authority :
  BuildResponse data query answers authority =
    header_bytes (response_header query answers authority) ++
    appended (flat_map writeQuestion (Questions query)) ++
    appended (flat_map writeResourceRecord answers) ++
    appended (flat_map writeResourceRecord authority).
Proof.
  unfold BuildResponse, BuildResponse_prog.
  rewrite <- app_comm_cons. change ([] ++ ?x) with x.
  rewrite run_Reset, run_appends_only.
  - rewrite !appended_app, appended_writeHeader. cbn [app].
    f_equal. unfold response_header. destruct (negb _); reflexivity.
  - apply Forall_app; split; [repeat constructor; done|].
    repeat (apply Forall_app; split);
      first [ apply appends_only_flat_map, appends_only_writeQuestion
            | apply appends_only_flat_map, appends_only_writeResourceRecord ].
Qed.

Lemma slice_firstn data lo hi :
  (lo <= hi)%nat -> (hi <= length data)%nat ->
  slice data lo hi = Some (firstn (hi - lo) (skipn lo data)).
Proof.
  intros. unfold slice.
  destruct (Nat.leb_spec lo hi); [|lia].
  by destruct (Nat.leb_spec hi (length data)); [|lia].
Qed.

(** Decoding the twelve bytes of an emitted header. *)
Lemma parseHeader_header_bytes h rest :
  parseHeader (header_bytes h ++ rest) =
    Ok (mkHeader (ID h mod 2 ^ 16) (Flags h mod 2 ^ 16) (QDCount h mod 2 ^ 16)
                 (ANCount h mod 2 ^ 16) (NSCount h mod 2 ^ 16)
                 (ARCount h mod 2 ^ 16), 12%nat).
Proof.
  unfold parseHeader, header_bytes.
  assert (Hlen : (12 <= length
     ((PutUint16 (ID h) ++ PutUint16 (Flags h) ++ PutUint16 (QDCount h) ++
       PutUint16 (ANCount h) ++ PutUint16 (NSCount h) ++ PutUint16 (ARCount h))
      ++ rest))%nat) by (rewrite length_app; cbn; lia).
  destruct (Nat.ltb_spec (length
     ((PutUint16 (ID h) ++ PutUint16 (Flags h) ++ PutUint16 (QDCount h) ++
       PutUint16 (ANCount h) ++ PutUint16 (NSCount h) ++ PutUint16 (ARCount h))
      ++ rest)) 12); [lia|].
  rewrite !slice_firstn by (done || lia).
  cbn [PutUint16 app Nat.sub firstn skipn mbind option_bind try bind].
  pose proof (Uint16_PutUint16 (ID h) []) as H1.
  pose proof (Uint16_PutUint16 (Flags h) []) as H2.
  pose proof (Uint16_PutUint16 (QDCount h) []) as H3.
  pose proof (Uint16_PutUint16 (ANCount h) []) as H4.
  pose proof (Uint16_PutUint16 (NSCount h) []) as H5.
  pose proof (Uint16_PutUint16 (ARCount h) []) as H6.
  cbn [PutUint16 app] in *.
  change (take 0 rest) with (@nil byte).
  rewrite H1, H2, H3, H4, H5, H6. reflexivity.
Qed.

Lemma parseHeader_Ok data h pos :
  parseHeader data = Ok (h, pos) ->
  pos = 12%nat /\ (12 <= length data)%nat /\
  ID h < 2 ^ 16 /\ Flags h < 2 ^ 16 /\ QDCount h < 2 ^ 16 /\
  ANCount h < 2 ^ 16 /\ NSCount h < 2 ^ 16 /\ ARCount h < 2 ^ 16.
Proof.
  unfold parseHeader. destruct (Nat.ltb_spec (length data) 12); [done|].
  repeat match goal with
  | |- context [try (s ← slice ?d ?a ?b; Uint16 s)] =>
    let s := fresh "s" in let H := fresh "H" in let v := fresh "v" in
    destruct (slice d a b) as [s|]; cbn [mbind option_bind try bind]; [|done];
    destruct (Uint16 s) as [v|] eqn:H; cbn [try bind]; [|done];
    apply Uint16_bound in H
  end.
  intros [= <- <-]. cbn. done.
Qed.

Lemma parseEntries_length {A} (parse : nat -> result error (A * nat)) wrap
    n i pos l pos' :
  parseEntries parse wrap n i pos = Ok (l, pos') -> length l = n.
Proof.
  revert i pos l pos'. induction n as [|n IH]; intros i pos l pos'.
  - by intros [= <- _].
  - cbn [parseEntries]. destruct (parse pos) as [[a p]|e| |]; try done.
    destruct (parseEntries parse wrap n (S i) p) as [[rest p']|e| |] eqn:H;
      cbn [bind]; try done.
    intros [= <- _]. cbn [length]. f_equal. by eapply IH.
Qed.

(** What the parser guarantees about the query it returns. *)
Lemma Parse_Ok_header fuel data query :
  Parse fuel data = Ok query ->
  ID (Hdr query) < 2 ^ 16 /\ Flags (Hdr query) < 2 ^ 16 /\
  QDCount (Hdr query) < 2 ^ 16 /\
  length (Questions query) = N.to_nat (QDCount (Hdr query)).
Proof.
  unfold Parse. destruct (parseHeader data) as [[h p]|e| |] eqn:Hh; try done.
  apply parseHeader_Ok in Hh as (-> & _ & ? & ? & ? & _).
  destruct (parseEntries _ in_question _ _ _) as [[qs p1]|e| |] eqn:Hq;
    cbn [bind]; try done.
  destruct (parseEntries _ in_answer _ _ _) as [[an p2]|e| |];
    cbn [bind]; try done.
  destruct (parseEntries _ in_authority _ _ _) as [[ns p3]|e| |];
    cbn [bind]; try done.
  destruct (parseEntries _ in_additional _ _ _) as [[ar p4]|e| |];
    cbn [bind]; try done.
  intros [= <-]. cbn [Hdr Questions].
  apply parseEntries_length in Hq. done.
Qed.

(** The header of a response, decoded from its first twelve bytes. *)
Lemma response_header_decoded fuel data buf query answers authority :
  Parse fuel data = Ok query ->
  parseHeader (firstn 12 (BuildResponse buf query answers authority)) =
    Ok (mkHeader (ID (Hdr query))
                 (if N.testbit (Flags (Hdr query)) 8 then 0x8500 else 0x8400)
                 (N.of_nat (length (Questions query)))
                 (N.of_nat (length answers) mod 2 ^ 16)
                 (N.of_nat (length authority) mod 2 ^ 16)
                 0, 12%nat).
Proof.
  intros (Hid & _ & Hqd & Hlen)%Parse_Ok_header.
  rewrite BuildResponse_bytes.
  rewrite take_app_length' by done.
  rewrite <- (app_nil_r (header_bytes _)), parseHeader_header_bytes.
  unfold response_header, len16. cbn [ID Flags QDCount ANCount NSCount ARCount].
  rewrite !N.Div0.mod_mod.
  rewrite (N.mod_small (ID _)) by done.
  rewrite (N.mod_small (N.of_nat (length (Questions query)))) by lia.
  change FlagRD with (2 ^ 8). rewrite land_pow2_eq0, negb_involutive.
  by destruct (N.testbit _ 8).
Qed.

(** The query of the tests and an answer for it. *)
Definition example_query : list byte :=
  bytes [0x12; 0x34; 0x01; 0x00; 0; 1; 0; 0; 0; 0; 0; 0; 7] ++ str "example" ++
  bytes [3] ++ str "com" ++ bytes [0; 0; 1; 0; 1].

Definition example_message : Message :=
  mkMessage (mkHeader 0x1234 0x100 1 0 0 0)
            [mkQuestion (str "example.com") TypeA ClassIN] [] [] [].

Definition example_answer : ResourceRecord :=
  mkRR (str "example.com") TypeA ClassIN 3600 0 [] (bytes [93; 184; 216; 34])
       [] 0 [] None.

(** C9, as the claim states it, fails for a list of 65536 answers: the
    count is a 16-bit field and the header announces no answer at all. *)
Lemma C9_counterexample :
  Parse 3 example_query = Ok example_message /\
  N.of_nat (length (repeat example_answer (N.to_nat 65536))) = 65536 /\
  parseHeader
    (firstn 12 (BuildResponse [] example_message
                              (repeat example_answer (N.to_nat 65536)) [])) =
    Ok (mkHeader 0x1234 0x8500 1 0 0 0, 12%nat).
Proof.
  assert (H : Parse 3 example_query = Ok example_message) by by vm_compute.
  split; [done|]. rewrite (response_header_decoded _ _ _ _ _ _ H).
  rewrite repeat_length, N2Nat.id. split; reflexivity.
Qed.

(** C9, amended.  For a query the parser returned and any two lists of
    records, the first twelve bytes of the response decode to a header
    with the identifier of the query, with QR and AA set, RD as in the
    query, RA and TC clear, opcode and response code zero, and with the
    counts: the number of questions echoed, the number of answers modulo
    65536, the number of authority records modulo 65536, and zero. *)
Theorem C9_response_header fuel data buf query answers authority :
  Parse fuel data = Ok query ->
  ∃ flags,
    parseHeader (firstn 12 (BuildResponse buf query answers authority)) =
      Ok (mkHeader (ID (Hdr query)) flags
                   (N.of_nat (length (Questions query)))
                   (N.of_nat (length answers) mod 2 ^ 16)
                   (N.of_nat (length authority) mod 2 ^ 16)
                   0, 12%nat) /\
    N.testbit flags 15 = true /\
    N.testbit flags 10 = true /\
    N.testbit flags 8 = N.testbit (Flags (Hdr query)) 8 /\
    N.testbit flags 7 = false /\
    N.testbit flags 9 = false /\
    N.land (N.shiftr flags 11) 0xF = 0 /\
    N.land flags 0xF = 0.
Proof.
  intros H. eexists. split; [by eapply response_header_decoded|].
  by destruct (N.testbit (Flags (Hdr query)) 8).
Qed.

Lemma C9_response_header_witness :
  ∃ flags,
    parseHeader (firstn 12 (BuildResponse [] example_message [example_answer] [])) =
      Ok (mkHeader 0x1234 flags 1 (1 mod 2 ^ 16) (0 mod 2 ^ 16) 0, 12%nat) /\
    N.testbit flags 15 = true /\
    N.testbit flags 10 = true /\
    N.testbit flags 8 = true /\
    N.testbit flags 7 = false /\
    N.testbit flags 9 = false /\
    N.land (N.shiftr flags 11) 0xF = 0 /\
    N.land flags 0xF = 0.
Proof.
  apply (C9_response_header 3 example_query [] example_message
           [example_answer] []).
  vm_compute. reflexivity.
Defined.

End response_header.

(** ** Handlers sharing the builder *)

Section shared_builder.

Lemma interleave_app s1 s2 data g1 g2 :
  interleave (s1 ++ s2) data g1 g2 =
    let '(data', g1', g2') := interleave s1 data g1 g2 in
    interleave s2 data' g1' g2'.
Proof.
  revert data g1 g2. induction s1 as [|[] s1 IH]; intros data g1 g2; [done|..];
    cbn [app interleave].
  - destruct (advance data g2). apply IH.
  - destruct (advance data g1). apply IH.
Qed.

(** A handler that takes all its steps in a row sends what it would send
    alone. *)
Lemma interleave_first_alone prog data g2 :
  interleave (repeat false (S (length prog))) data (mkGoroutine prog None) g2 =
    (run prog data, mkGoroutine [] (Some (alone data prog)), g2).
Proof.
  revert data. induction prog as [|a prog IH]; intros data; [done|].
  cbn [length repeat interleave advance todo sent]. apply IH.
Qed.

Lemma interleave_second_alone prog data g1 :
  interleave (repeat true (S (length prog))) data g1 (mkGoroutine prog None) =
    (run prog data, g1, mkGoroutine [] (Some (alone data prog))).
Proof.
  revert data. induction prog as [|a prog IH]; intros data; [done|].
  cbn [length repeat interleave advance todo sent]. apply IH.
Qed.

(** One after the other, the two handlers do not interfere. *)
Lemma interleave_sequential prog1 prog2 data :
  interleave (repeat false (S (length prog1)) ++ repeat true (S (length prog2)))
             data (mkGoroutine prog1 None) (mkGoroutine prog2 None) =
    (run prog2 (run prog1 data),
     mkGoroutine [] (Some (alone data prog1)),
     mkGoroutine [] (Some (alone (run prog1 data) prog2))).
Proof.
  by rewrite interleave_app, interleave_first_alone, interleave_second_alone.
Qed.

(** A server with the zone example.com holding one A record, and two
    queries for it that differ in their identifier. *)
Definition example_zones : gmap (list byte) Zone :=
  {[ str "example.com" := buildZone (str "example.com") [example_answer] ]}.

Definition second_query : list byte :=
  bytes [0xAB; 0xCD; 0x01; 0x00; 0; 1; 0; 0; 0; 0; 0; 0; 7] ++ str "example" ++
  bytes [3] ++ str "com" ++ bytes [0; 0; 1; 0; 1].

Definition second_message : Message :=
  mkMessage (mkHeader 0xABCD 0x100 1 0 0 0)
            [mkQuestion (str "example.com") TypeA ClassIN] [] [] [].

(** The first handler resets the buffer and writes its header (7
    statements); the second handler then runs from its reset to its send
    (16 statements and the send); the first handler then writes its
    question and its answer and sends. *)
Definition race_schedule : list bool :=
  repeat false 7 ++ repeat true 17 ++ repeat false 10.

(** C10.  Two handlers on the builder of the server interfere: under
    [race_schedule] the reset of the second handler discards the header
    the first has written, and the first handler then appends its question
    and answer to the reply of the second.  The first handler sends a
    reply that starts with the identifier of the other query (0xABCD, not
    0x1234) and is not the reply it sends when it runs alone.  The claim
    asks for the replies of the handlers alone. *)
Theorem C10_shared_builder_interference :
  let prog1 := BuildResponse_prog example_message [example_answer] [] in
  let prog2 := BuildResponse_prog second_message [example_answer] [] in
  handleQuery example_zones 3 example_query = Ok (Some prog1) /\
  handleQuery example_zones 3 second_query = Ok (Some prog2) /\
  ∃ data reply1 reply2,
    interleave race_schedule NewBuilder
               (mkGoroutine prog1 None) (mkGoroutine prog2 None) =
      (data, mkGoroutine [] (Some reply1), mkGoroutine [] (Some reply2)) /\
    reply1 <> alone NewBuilder prog1 /\
    firstn 2 reply1 = bytes [0xAB; 0xCD] /\
    firstn 2 (alone NewBuilder prog1) = bytes [0x12; 0x34].
Proof.
  cbv zeta. split; [by vm_compute|]. split; [by vm_compute|].
  eexists _, _, _. split; [vm_compute; reflexivity|].
  split; [|split; vm_compute; reflexivity].
  vm_compute. discriminate.
Qed.

End shared_builder.

(** ** Names on the wire: encoding and decoding *)

Section name_codec.

Lemma Split_nonempty s sep : Split s sep <> [].
Proof.
  destruct s as [|c s]; cbn [Split]; [done|].
  destruct (bool_decide _); [done|]. by destruct (Split s sep).
Qed.

Lemma Join_cons e e' rest sep :
  Join (e :: e' :: rest) sep = e ++ sep ++ Join (e' :: rest) sep.
Proof. reflexivity. Qed.

Lemma Join_Split s (sep : byte) : Join (Split s sep) [sep] = s.
Proof.
  induction s as [|c s IH]; [done|]. cbn [Split].
  destruct (bool_decide_reflect (c = sep)) as [->|Hne].
  - pose proof (Split_nonempty s sep).
    destruct (Split s sep) as [|l ls] eqn:E; [done|].
    rewrite Join_cons, IH. done.
  - destruct (Split s sep) as [|l ls] eqn:E.
    + by destruct (Split_nonempty s sep).
    + destruct ls as [|l' ls].
      * cbn [Join] in *. by rewrite IH.
      * rewrite Join_cons in *. by rewrite <- IH.
Qed.

Lemma Split_no_sep s sep : Forall (λ l, sep ∉ l) (Split s sep).
Proof.
  induction s as [|c s IH]; cbn [Split].
  - repeat constructor. apply not_elem_of_nil.
  - destruct (bool_decide_reflect (c = sep)) as [->|Hne].
    + constructor; [apply not_elem_of_nil|done].
    + destruct (Split s sep) as [|l ls] eqn:E;
        [by destruct (Split_nonempty s sep)|].
      apply Forall_cons in IH as [Hl Hls]. constructor; [|done].
      apply not_elem_of_cons. split; [congruence|done].
Qed.

(** What [encodeName] emits for one label. *)
Definition encodeLabel (label : list byte) : list byte :=
  let label := if (63 <? length label)%nat then firstn 63 label else label in
  byte_of_nat (length label) :: label.

Lemma encodeName_fold labels acc :
  fold_left
    (fun result label =>
       let label := if (63 <? length label)%nat then firstn 63 label
                    else label in
       (result ++ [byte_of_nat (length label)]) ++ label)
    labels acc = acc ++ flat_map encodeLabel labels.
Proof.
  revert acc. induction labels as [|l labels IH]; intros acc.
  - by rewrite app_nil_r.
  - cbn [fold_left flat_map]. rewrite IH. unfold encodeLabel.
    cbv zeta. by rewrite <- !app_assoc.
Qed.

Lemma encodeName_labels name :
  name <> str "" -> name <> str "." ->
  encodeName name =
    flat_map encodeLabel (Split (TrimSuffix name (str ".")) "."%char) ++ bytes [0].
Proof.
  intros H1 H2. unfold encodeName.
  destruct (bool_decide_reflect (name = str "")); [done|].
  destruct (bool_decide_reflect (name = str ".")); [done|].
  cbn [orb]. by rewrite encodeName_fold.
Qed.

Lemma byte_of_nat_N n : (n < 256)%nat -> N_of_ascii (byte_of_nat n) = N.of_nat n.
Proof.
  intros H. unfold byte_of_nat. rewrite N_ascii_embedding.
  - apply N.mod_small. lia.
  - apply N.mod_lt. done.
Qed.

Lemma land_192_small n : n < 64 -> N.land n 0xC0 <> 0xC0.
Proof.
  intros Hn H.
  assert (Hb : N.testbit (N.land n 0xC0) 7 = true) by by rewrite H.
  rewrite N.land_spec in Hb. apply andb_true_iff in Hb as [Hb _].
  rewrite <- (N.mod_small n (2 ^ 6)) in Hb by done.
  by rewrite N.mod_pow2_bits_high in Hb.
Qed.

(** The step of [parseName] at a length octet that is neither a pointer
    nor zero. *)
Lemma parseName_loop_label fuel data pos labels visited b :
  index data pos = Some b ->
  N.land (N_of_ascii b) 0xC0 <> 0xC0 ->
  N_of_ascii b <> 0 ->
  parseName_loop (S fuel) data pos labels visited =
    let len := N.to_nat (N_of_ascii b) in
    if (length data <? pos + 1 + len)%nat then Err label_extends_past_data
    else parseName_loop fuel data (pos + 1 + len)
           (labels ++ [firstn len (skipn (pos + 1) data)]) visited.
Proof.
  intros Hb Hptr Hnz. cbn [parseName_loop].
  assert (pos < length data)%nat
    by (apply nth_error_Some; unfold index in Hb; congruence).
  destruct (Nat.leb_spec (length data) pos) as [?|_]; [lia|].
  rewrite Hb. cbn [try bind].
  destruct (N.eqb_spec (N.land (N_of_ascii b) 192) 192); [done|].
  destruct (N.eqb_spec (N_of_ascii b) 0); [done|].
  cbn zeta.
  destruct (Nat.ltb_spec (length data) (pos + 1 + N.to_nat (N_of_ascii b)));
    [done|].
  rewrite slice_Some by lia. cbn [try bind].
  by replace (pos + 1 + N.to_nat (N_of_ascii b) - (pos + 1))%nat
    with (N.to_nat (N_of_ascii b)) by lia.
Qed.

(** The step of [parseName] at the zero octet that ends a name. *)
Lemma parseName_loop_end fuel data pos labels visited :
  index data pos = Some (byte_of_N 0) ->
  parseName_loop (S fuel) data pos labels visited =
    Ok (Join labels (str "."), (pos + 1)%nat).
Proof.
  intros Hb. cbn [parseName_loop].
  assert (pos < length data)%nat
    by (apply nth_error_Some; unfold index in Hb; congruence).
  destruct (Nat.leb_spec (length data) pos) as [?|_]; [lia|].
  rewrite Hb. reflexivity.
Qed.

(** A label as the wire format allows it: 1 to 63 bytes. *)
Definition wire_label (l : list byte) : Prop := (1 <= length l <= 63)%nat.

Lemma encodeLabel_wire l : wire_label l -> encodeLabel l = byte_of_nat (length l) :: l.
Proof.
  intros [_ H]. unfold encodeLabel.
  by destruct (Nat.ltb_spec 63 (length l)); [lia|].
Qed.

Lemma parseName_loop_labels labels : ∀ fuel pre post acc visited,
  Forall wire_label labels ->
  (length labels < fuel)%nat ->
  parseName_loop fuel (pre ++ flat_map encodeLabel labels ++ bytes [0] ++ post)
                 (length pre) acc visited =
    Ok (Join (acc ++ labels) (str "."),
        (length pre + length (flat_map encodeLabel labels) + 1)%nat).
Proof.
  induction labels as [|l labels IH]; intros fuel pre post acc visited Hwf Hfuel.
  - destruct fuel as [|fuel]; [lia|]. cbn [flat_map app length].
    rewrite parseName_loop_end.
    + rewrite app_nil_r. f_equal. f_equal. lia.
    + unfold index. rewrite nth_error_app2 by lia.
      by rewrite Nat.sub_diag.
  - destruct fuel as [|fuel]; [cbn in Hfuel; lia|].
    apply Forall_cons in Hwf as [Hl Hwf]. cbn [flat_map].
    rewrite (encodeLabel_wire l Hl). destruct Hl as [Hl1 Hl2].
    erewrite (parseName_loop_label _ _ _ _ _ (byte_of_nat (length l))).
    2:{ unfold index. rewrite nth_error_app2 by lia. by rewrite Nat.sub_diag. }
    2:{ rewrite byte_of_nat_N by lia. apply land_192_small. lia. }
    2:{ rewrite byte_of_nat_N by lia. lia. }
    cbv zeta. rewrite byte_of_nat_N by lia. rewrite Nat2N.id.
    destruct (Nat.ltb_spec
      (length (pre ++ ((byte_of_nat (length l) :: l) ++ flat_map encodeLabel labels)
               ++ bytes [0] ++ post)) (length pre + 1 + length l)) as [Hlt|_].
    { rewrite ?length_app in Hlt. cbn [length] in Hlt.
      rewrite ?length_app in Hlt. lia. }
    assert (Hdata : pre ++ ((byte_of_nat (length l) :: l) ++ flat_map encodeLabel labels)
               ++ bytes [0] ++ post =
            (pre ++ byte_of_nat (length l) :: l) ++
              flat_map encodeLabel labels ++ bytes [0] ++ post).
    { by rewrite <- !app_assoc. }
    assert (Hlab : firstn (length l) (skipn (length pre + 1)
               (pre ++ ((byte_of_nat (length l) :: l) ++ flat_map encodeLabel labels)
                ++ bytes [0] ++ post)) = l).
    { rewrite <- !app_assoc. cbn [app].
      replace (pre ++ byte_of_nat (length l) :: l ++ flat_map encodeLabel labels ++
               bytes [0] ++ post)
        with ((pre ++ [byte_of_nat (length l)]) ++ l ++
              flat_map encodeLabel labels ++ bytes [0] ++ post)
        by (by rewrite <- app_assoc).
      rewrite drop_app_length' by (rewrite length_app; cbn; lia).
      by rewrite take_app_length. }
    rewrite Hlab, Hdata.
    replace (length pre + 1 + length l)%nat
      with (length (pre ++ byte_of_nat (length l) :: l))
      by (rewrite length_app; cbn [length]; lia).
    rewrite IH by (done || cbn [length] in Hfuel; lia).
    rewrite <- app_assoc. cbn [app]. f_equal. f_equal.
    rewrite ?length_app. cbn [length]. rewrite ?length_app. lia.
Qed.

Lemma Split_snoc s sep : Split (s ++ [sep]) sep = Split s sep ++ [[]].
Proof.
  induction s as [|c s IH]; cbn [app Split].
  - by rewrite bool_decide_true.
  - rewrite IH. destruct (bool_decide (c = sep)); [done|].
    pose proof (Split_nonempty s sep). by destruct (Split s sep).
Qed.

Lemma HasSuffix_true s suffix :
  HasSuffix s suffix = true <-> ∃ s', s = s' ++ suffix.
Proof.
  unfold HasSuffix. rewrite andb_true_iff, bool_decide_eq_true, Nat.leb_le.
  split.
  - intros [Hlen Heq]. exists (take (length s - length suffix) s).
    rewrite <- Heq at 2. by rewrite take_drop.
  - intros [s' ->]. rewrite length_app. split; [lia|].
    by rewrite drop_app_length' by lia.
Qed.

Lemma TrimSuffix_app s suffix : TrimSuffix (s ++ suffix) suffix = s.
Proof.
  unfold TrimSuffix.
  replace (HasSuffix (s ++ suffix) suffix) with true
    by (symmetry; apply HasSuffix_true; eauto).
  rewrite length_app. by rewrite take_app_length' by lia.
Qed.

Lemma TrimSuffix_id s suffix : HasSuffix s suffix = false -> TrimSuffix s suffix = s.
Proof. unfold TrimSuffix. by intros ->. Qed.

(** A name as it can be written on the wire without loss: the empty
    name, or labels of 1 to 63 bytes joined by dots. *)
Definition wire_name (name : list byte) : Prop :=
  name = [] \/ Forall wire_label (Split name "."%char).

Lemma wire_name_no_trailing_dot name :
  Forall wire_label (Split name "."%char) -> HasSuffix name (str ".") = false.
Proof.
  intros Hwf. destruct (HasSuffix name (str ".")) eqn:E; [|done].
  apply HasSuffix_true in E as [s' ->].
  change (str ".") with ["."%char] in Hwf. rewrite Split_snoc in Hwf.
  apply Forall_app in Hwf as [_ Hwf]. apply Forall_cons in Hwf as [[Hl _] _].
  cbn in Hl. lia.
Qed.

(** The length of an encoded name: every label with its length octet, and
    the final zero. *)
Lemma encodeName_wire name :
  Forall wire_label (Split name "."%char) ->
  encodeName name = flat_map encodeLabel (Split name "."%char) ++ bytes [0].
Proof.
  intros Hwf.
  assert (name <> str "").
  { intros ->. apply Forall_cons in Hwf as [[Hl _] _]. cbn in Hl. lia. }
  assert (name <> str ".").
  { intros ->. apply Forall_cons in Hwf as [[Hl _] _]. cbn in Hl. lia. }
  rewrite encodeName_labels by done.
  by rewrite TrimSuffix_id by by apply wire_name_no_trailing_dot.
Qed.

(** The loop of [parseName], started on an encoded name with no label
    read yet. *)
Lemma parseName_loop_encodeName name pre post fuel visited :
  wire_name name ->
  (length (Split name "."%char) < fuel)%nat ->
  parseName_loop fuel (pre ++ encodeName name ++ post) (length pre) [] visited =
    Ok (name, (length pre + length (encodeName name))%nat).
Proof.
  intros [->|Hwf] Hfuel.
  - destruct fuel as [|fuel]; [lia|].
    change (encodeName []) with (bytes [0]).
    rewrite parseName_loop_end; [done|].
    unfold index. rewrite nth_error_app2 by lia. by rewrite Nat.sub_diag.
  - rewrite encodeName_wire by done.
    rewrite <- app_assoc, parseName_loop_labels by done.
    cbn [app]. change (str ".") with ["."%char]. rewrite Join_Split.
    f_equal. f_equal. rewrite length_app. cbn [length bytes map]. lia.
Qed.

(** Decoding what [encodeName] emitted, anywhere in a buffer, gives the
    name back and leaves the cursor behind the encoded name. *)
Theorem parseName_encodeName name pre post fuel :
  wire_name name ->
  (length (Split name "."%char) < fuel)%nat ->
  parseName fuel (pre ++ encodeName name ++ post) (length pre) =
    Ok (name, (length pre + length (encodeName name))%nat).
Proof.
  intros Hwf Hfuel. unfold parseName.
  by apply parseName_loop_encodeName.
Qed.

Lemma parseName_encodeName_witness :
  parseName 3 (bytes [0xAA] ++ encodeName (str "example.com") ++ bytes [0xBB])
            1 =
    Ok (str "example.com", 14%nat).
Proof.
  apply (parseName_encodeName (str "example.com") (bytes [0xAA]) (bytes [0xBB]) 3).
  - right. vm_compute. repeat constructor.
  - vm_compute. lia.
Defined.

End name_codec.

(** ** Questions and error responses: encoding and decoding *)

Section question_codec.

Lemma slice_app_mid pre mid post :
  slice (pre ++ mid ++ post) (length pre) (length pre + length mid) = Some mid.
Proof.
  rewrite slice_Some by (rewrite ?length_app; lia).
  rewrite drop_app_length.
  replace (length pre + length mid - length pre)%nat with (length mid) by lia.
  by rewrite take_app_length.
Qed.

Lemma Uint16_at pre v post :
  (s ← slice (pre ++ PutUint16 v ++ post) (length pre) (length pre + 2);
   Uint16 s) = Some (v mod 2 ^ 16).
Proof.
  change (length pre + 2)%nat with (length pre + length (PutUint16 v))%nat.
  rewrite (slice_app_mid pre (PutUint16 v) post). cbn [mbind option_bind].
  rewrite <- (app_nil_r (PutUint16 v)). apply Uint16_PutUint16.
Qed.

Lemma Uint32_at pre v post :
  (s ← slice (pre ++ PutUint32 v ++ post) (length pre) (length pre + 4);
   Uint32 s) = Some (v mod 2 ^ 32).
Proof.
  change (length pre + 4)%nat with (length pre + length (PutUint32 v))%nat.
  rewrite (slice_app_mid pre (PutUint32 v) post). cbn [mbind option_bind].
  rewrite <- (app_nil_r (PutUint32 v)). apply Uint32_PutUint32.
Qed.

(** The bytes [writeQuestion] appends. *)
Definition question_bytes (q : Question) : list byte :=
  encodeName (QName q) ++ PutUint16 (QType q) ++ PutUint16 (QClass q).

Lemma appended_writeQuestion q : appended (writeQuestion q) = question_bytes q.
Proof.
  unfold question_bytes, writeQuestion, appended.
  cbn [writeName writeUint16 app flat_map]. by rewrite app_nil_r.
Qed.

(** A question that the wire format carries without loss, and that
    [fuel] suffices to decode. *)
Definition wire_question (fuel : nat) (q : Question) : Prop :=
  wire_name (QName q) /\ (length (Split (QName q) "."%char) < fuel)%nat /\
  QType q < 2 ^ 16 /\ QClass q < 2 ^ 16.

Lemma parseQuestion_question_bytes fuel q pre post :
  wire_question fuel q ->
  parseQuestion fuel (pre ++ question_bytes q ++ post) (length pre) =
    Ok (q, (length pre + length (question_bytes q))%nat).
Proof.
  intros (Hname & Hfuel & Hty & Hcl). unfold parseQuestion, question_bytes.
  rewrite <- !app_assoc. unfold parseName.
  rewrite parseName_loop_encodeName by done. cbn [bind].
  set (pre1 := pre ++ encodeName (QName q)).
  assert (Hpre1 : (length pre + length (encodeName (QName q)))%nat = length pre1)
    by (unfold pre1; by rewrite length_app).
  rewrite Hpre1.
  replace (pre ++ encodeName (QName q) ++ PutUint16 (QType q) ++
           PutUint16 (QClass q) ++ post)
    with (pre1 ++ PutUint16 (QType q) ++ PutUint16 (QClass q) ++ post)
    by (unfold pre1; by rewrite <- app_assoc).
  destruct (Nat.ltb_spec
    (length (pre1 ++ PutUint16 (QType q) ++ PutUint16 (QClass q) ++ post))
    (length pre1 + 4)) as [Hlt|_].
  { rewrite ?length_app in Hlt. cbn [length PutUint16] in Hlt. lia. }
  rewrite Uint16_at. cbn [try bind].
  replace (pre1 ++ PutUint16 (QType q) ++ PutUint16 (QClass q) ++ post)
    with ((pre1 ++ PutUint16 (QType q)) ++ PutUint16 (QClass q) ++ post)
    by (by rewrite <- app_assoc).
  replace (length pre1 + 2)%nat with (length (pre1 ++ PutUint16 (QType q)))
    by (rewrite length_app; done).
  replace (length pre1 + 4)%nat with (length (pre1 ++ PutUint16 (QType q)) + 2)%nat
    by (rewrite length_app; cbn [length PutUint16]; lia).
  rewrite Uint16_at. cbn [try bind].
  rewrite !N.mod_small by done. destruct q as [n t c]. cbn [QName QType QClass].
  f_equal. f_equal. rewrite ?length_app. cbn [length PutUint16].
  cbn [QName] in Hpre1. lia.
Qed.

(** A section of [n] entries, each encoded by [enc] and decoded by [parse],
    is read back entry by entry. *)
Lemma parseEntries_encoded {A} (parse : list byte -> nat -> result error (A * nat))
    (enc : A -> list byte) (P : A -> Prop) wrap :
  (∀ a pre post, P a ->
     parse (pre ++ enc a ++ post) (length pre) =
       Ok (a, (length pre + length (enc a))%nat)) ->
  ∀ l pre post i, Forall P l ->
    parseEntries (parse (pre ++ flat_map enc l ++ post)) wrap (length l) i
                 (length pre) =
      Ok (l, (length pre + length (flat_map enc l))%nat).
Proof.
  intros Hparse l. induction l as [|a l IH]; intros pre post i Hl.
  - cbn [length parseEntries flat_map]. f_equal. f_equal. lia.
  - apply Forall_cons in Hl as [Ha Hl]. cbn [length parseEntries flat_map].
    rewrite <- app_assoc, Hparse by done.
    specialize (IH (pre ++ enc a) post (S i) Hl).
    rewrite <- app_assoc, length_app in IH. rewrite IH. cbn [bind].
    f_equal. f_equal. rewrite length_app. lia.
Qed.

Lemma appended_flat_map {A} (f : A -> list action) (g : A -> list byte) l :
  (∀ a, appended (f a) = g a) ->
  appended (flat_map f l) = flat_map g l.
Proof.
  intros Hfg. induction l as [|a l IH]; [done|].
  cbn [flat_map]. by rewrite appended_app, Hfg, IH.
Qed.

Definition error_header (query : Message) (rcode : N) : Header :=
  mkHeader (ID (Hdr query)) (N.lor (N.lor FlagQR FlagAA) rcode)
           (len16 (Questions query)) 0 0 0.

(** The output of [BuildErrorResponse]: a header and the questions of the
    query, whatever the buffer held before. *)
Lemma BuildErrorResponse_bytes data query rcode :
  BuildErrorResponse data query rcode =
    header_bytes (error_header query rcode) ++
    flat_map question_bytes (Questions query).
Proof.
  unfold BuildErrorResponse, BuildErrorResponse_prog.
  rewrite <- app_comm_cons. change ([] ++ ?x) with x.
  rewrite run_Reset, run_appends_only.
  - rewrite appended_app, appended_writeHeader. cbn [app]. f_equal.
    apply appended_flat_map, appended_writeQuestion.
  - apply Forall_app; split; [repeat constructor; done|].
    apply appends_only_flat_map, appends_only_writeQuestion.
Qed.

Lemma lor_mod_pow2 a b n :
  N.lor a b mod 2 ^ n = N.lor (a mod 2 ^ n) (b mod 2 ^ n).
Proof. by rewrite <- !N.land_ones, N.land_lor_distr_l. Qed.

(** A query whose identifier and number of questions fit their 16-bit
    fields and whose questions the wire format carries without loss. *)
Definition wire_query (fuel : nat) (query : Message) : Prop :=
  ID (Hdr query) < 2 ^ 16 /\
  N.of_nat (length (Questions query)) < 2 ^ 16 /\
  Forall (wire_question fuel) (Questions query).

(** The round trip of an error response: parsing what
    [BuildErrorResponse] built gives the identifier of the query, the
    flags QR and AA with the response code, the questions of the query,
    and no record. *)
Theorem Parse_BuildErrorResponse fuel buf query rcode :
  wire_query fuel query -> rcode < 2 ^ 8 ->
  Parse fuel (BuildErrorResponse buf query rcode) =
    Ok (mkMessage
          (mkHeader (ID (Hdr query)) (0x8400 + rcode)
                    (N.of_nat (length (Questions query))) 0 0 0)
          (Questions query) [] [] []).
Proof.
  intros (Hid & Hn & Hqs) Hrc. rewrite BuildErrorResponse_bytes.
  unfold Parse. rewrite parseHeader_header_bytes.
  set (hb := header_bytes (error_header query rcode)).
  unfold error_header, len16. cbn [ID Flags QDCount ANCount NSCount ARCount].
  rewrite N.Div0.mod_mod, (N.mod_small (ID _)), (N.mod_small (N.of_nat _)) by done.
  rewrite Nat2N.id.
  change 12%nat with (length hb).
  rewrite <- (app_nil_r (flat_map question_bytes (Questions query))).
  rewrite (parseEntries_encoded (parseQuestion fuel) question_bytes
             (wire_question fuel)) by
    (done || intros; by apply parseQuestion_question_bytes).
  cbn [bind N.to_nat parseEntries]. change (0 mod 2 ^ 16) with 0.
  cbn [N.to_nat parseEntries bind]. do 3 f_equal.
  rewrite lor_mod_pow2, (N.mod_small rcode) by (eapply N.lt_trans; [done|done]).
  change (N.lor FlagQR FlagAA mod 2 ^ 16) with 0x8400.
  symmetry. rewrite <- N.lxor_lor, <- N.add_nocarry_lxor; try done.
  all: apply N.bits_inj; intros n; rewrite N.land_spec, N.bits_0;
    destruct (N.lt_ge_cases n 8);
    [ replace (N.testbit 33792 n) with false; [done|];
      symmetry; change 33792 with (132 * 2 ^ 8);
      by apply N.mul_pow2_bits_low
    | rewrite <- (N.mod_small rcode (2 ^ 8)) by done;
      rewrite (N.mod_pow2_bits_high rcode) by done; apply andb_false_r ].
Qed.

Lemma Parse_BuildErrorResponse_witness :
  Parse 3 (BuildErrorResponse [] example_message RcodeNameError) =
    Ok (mkMessage (mkHeader 0x1234 (0x8400 + RcodeNameError) 1 0 0 0)
                  [mkQuestion (str "example.com") TypeA ClassIN] [] [] []).
Proof.
  apply (Parse_BuildErrorResponse 3 [] example_message RcodeNameError).
  - unfold wire_query. split; [reflexivity|]. split; [reflexivity|].
    constructor; [|constructor].
    unfold wire_question. split; [|split; [|split]].
    + right. vm_compute. repeat constructor.
    + vm_compute. lia.
    + reflexivity.
    + reflexivity.
  - reflexivity.
Defined.

End question_codec.

(** ** TXT data: encoding and decoding *)

Section txt_codec.

(** What [encodeTXT] emits for one string. *)
Definition encodeText (text : list byte) : list byte :=
  let text := if (255 <? length text)%nat then firstn 255 text else text in
  byte_of_nat (length text) :: text.

Lemma encodeTXT_fold texts acc :
  fold_left
    (fun result text =>
       let text := if (255 <? length text)%nat then firstn 255 text
                   else text in
       (result ++ [byte_of_nat (length text)]) ++ text)
    texts acc = acc ++ flat_map encodeText texts.
Proof.
  revert acc. induction texts as [|t texts IH]; intros acc.
  - by rewrite app_nil_r.
  - cbn [fold_left flat_map]. rewrite IH. unfold encodeText.
    cbv zeta. by rewrite <- !app_assoc.
Qed.

Lemma encodeTXT_flat_map texts : encodeTXT texts = flat_map encodeText texts.
Proof. unfold encodeTXT. by rewrite encodeTXT_fold. Qed.

Lemma encodeText_short t :
  (length t <= 255)%nat -> encodeText t = byte_of_nat (length t) :: t.
Proof.
  intros H. unfold encodeText.
  by destruct (Nat.ltb_spec 255 (length t)); [lia|].
Qed.

Lemma parseTXT_loop_encoded texts : ∀ fuel pre acc,
  Forall (λ t, (length t <= 255)%nat) texts ->
  (length texts <= fuel)%nat ->
  parseTXT_loop fuel (pre ++ flat_map encodeText texts) (length pre) acc =
    Ok (acc ++ texts).
Proof.
  induction texts as [|t texts IH]; intros fuel pre acc Hwf Hfuel.
  - rewrite !app_nil_r. destruct fuel as [|fuel]; [done|].
    cbn [parseTXT_loop]. by rewrite Nat.ltb_irrefl.
  - destruct fuel as [|fuel]; [cbn in Hfuel; lia|].
    apply Forall_cons in Hwf as [Ht Hwf]. cbn [flat_map].
    rewrite (encodeText_short t Ht).
    set (rest := flat_map encodeText texts).
    set (b := byte_of_nat (length t)).
    assert (Hdata : pre ++ (b :: t) ++ rest = (pre ++ [b]) ++ t ++ rest)
      by (by rewrite <- !app_assoc).
    assert (Hlen : length (pre ++ (b :: t) ++ rest) =
                   (length pre + 1 + length t + length rest)%nat)
      by (rewrite !length_app; cbn [length]; lia).
    cbn [parseTXT_loop]. rewrite Hlen.
    destruct (Nat.ltb_spec (length pre)
                (length pre + 1 + length t + length rest)) as [_|?]; [|lia].
    replace (index (pre ++ (b :: t) ++ rest) (length pre)) with (Some b).
    2:{ unfold index. rewrite nth_error_app2 by lia. by rewrite Nat.sub_diag. }
    assert (Hb : N.to_nat (N_of_ascii b) = length t)
      by (unfold b; rewrite byte_of_nat_N by lia; apply Nat2N.id).
    cbn [try bind]. rewrite Hb.
    destruct (Nat.ltb_spec (length pre + 1 + length t + length rest)
                (length pre + 1 + length t)) as [?|_]; [lia|].
    rewrite Hdata.
    replace (length pre + 1)%nat with (length (pre ++ [b]))
      by (rewrite length_app; done).
    rewrite slice_app_mid. cbn [try bind].
    rewrite app_assoc, <- length_app.
    rewrite IH by (done || cbn [length] in Hfuel; lia).
    by rewrite <- app_assoc.
Qed.

Lemma parseTXT_encodeText texts :
  Forall (λ t, (length t <= 255)%nat) texts ->
  parseTXT (flat_map encodeText texts) = Ok texts.
Proof.
  intros Hwf. unfold parseTXT.
  apply (parseTXT_loop_encoded texts _ [] []); [done|].
  clear Hwf. induction texts as [|t texts IH]; [done|].
  cbn [flat_map length]. rewrite length_app.
  unfold encodeText at 1. cbn [length]. lia.
Qed.

(** Decoding what [encodeTXT] emitted gives the strings back, as long as
    none is longer than 255 bytes. *)
Theorem parseTXT_encodeTXT texts :
  Forall (λ t, (length t <= 255)%nat) texts ->
  parseTXT (encodeTXT texts) = Ok texts.
Proof.
  intros Hwf. rewrite encodeTXT_flat_map.
  by apply parseTXT_encodeText.
Qed.

Lemma parseTXT_encodeTXT_witness :
  parseTXT (encodeTXT [str "v=spf1 mx -all"; str ""]) =
    Ok [str "v=spf1 mx -all"; str ""].
Proof.
  apply (parseTXT_encodeTXT [str "v=spf1 mx -all"; str ""]).
  repeat constructor; cbn; lia.
Defined.

End txt_codec.

(** ** Resource records: encoding and decoding *)

Section record_codec.

(** The bytes [writeResourceRecord] appends. *)
Definition record_bytes (rr : ResourceRecord) : list byte :=
  encodeName (Name rr) ++ PutUint16 (Type_ rr) ++ PutUint16 (Class rr) ++
  PutUint32 (TTL rr) ++ PutUint16 (len16 (buildRData rr)) ++ buildRData rr.

Lemma appended_writeResourceRecord rr :
  appended (writeResourceRecord rr) = record_bytes rr.
Proof.
  unfold record_bytes, writeResourceRecord, appended.
  cbn [writeName writeUint16 writeUint32 app flat_map]. by rewrite app_nil_r.
Qed.

(** The record the parser returns for an emitted record: the common
    fields, the length and bytes of the record data, and the fields the
    parser fills in for the type. *)
Definition decoded (rr : ResourceRecord) : ResourceRecord :=
  let rdata := buildRData rr in
  let ty := Type_ rr in
  mkRR (Name rr) ty (Class rr) (TTL rr) (N.of_nat (length rdata)) rdata
       (if ty =? TypeA then To4 (Address rr)
        else if ty =? TypeAAAA then To16 (Address rr) else [])
       (if (ty =? TypeCNAME) || (ty =? TypeNS) || (ty =? TypeMX)
        then Target rr else [])
       (if ty =? TypeMX then Priority rr else 0)
       (if ty =? TypeTXT then Text rr else [])
       None.

(** A record that the wire format carries without loss, and that [fuel]
    suffices to decode. *)
Definition wire_record (fuel : nat) (rr : ResourceRecord) : Prop :=
  wire_name (Name rr) /\ (length (Split (Name rr) "."%char) < fuel)%nat /\
  Type_ rr < 2 ^ 16 /\ Class rr < 2 ^ 16 /\ TTL rr < 2 ^ 32 /\
  N.of_nat (length (buildRData rr)) < 2 ^ 16 /\
  (Type_ rr = TypeCNAME \/ Type_ rr = TypeNS \/ Type_ rr = TypeMX ->
   wire_name (Target rr) /\
   (length (Split (Target rr) "."%char) < fuel)%nat) /\
  (Type_ rr = TypeMX -> Priority rr < 2 ^ 16) /\
  (Type_ rr = TypeTXT -> Forall (λ t, (length t <= 255)%nat) (Text rr)).

Lemma To4_length ip : To4 ip = [] \/ length (To4 ip) = 4%nat.
Proof.
  unfold To4. destruct (Nat.eqb_spec (length ip) 4); [by right|].
  destruct (Nat.eqb_spec (length ip) 16); cbn [andb]; [|by left].
  destruct (bool_decide _); [|by left]. right. rewrite length_drop. lia.
Qed.

Lemma To16_length ip : To16 ip = [] \/ length (To16 ip) = 16%nat.
Proof.
  unfold To16. destruct (Nat.eqb_spec (length ip) 4) as [H4|].
  - right. rewrite length_app, H4. done.
  - destruct (Nat.eqb_spec (length ip) 16); [by right|by left].
Qed.

(** The ten bytes between the owner name and the record data. *)
Lemma fixed_fields p ty cl ttl rl rest :
  let data := p ++ PutUint16 ty ++ PutUint16 cl ++ PutUint32 ttl ++
              PutUint16 rl ++ rest in
  (s ← slice data (length p) (length p + 2); Uint16 s) = Some (ty mod 2 ^ 16) /\
  (s ← slice data (length p + 2) (length p + 4); Uint16 s) = Some (cl mod 2 ^ 16) /\
  (s ← slice data (length p + 4) (length p + 8); Uint32 s) = Some (ttl mod 2 ^ 32) /\
  (s ← slice data (length p + 8) (length p + 10); Uint16 s) = Some (rl mod 2 ^ 16).
Proof.
  cbv zeta. split; [apply Uint16_at|]. split; [|split].
  - pose proof (Uint16_at (p ++ PutUint16 ty) cl
                  (PutUint32 ttl ++ PutUint16 rl ++ rest)) as H.
    rewrite length_app, <- !app_assoc in H. cbn [length PutUint16] in H.
    rewrite <- Nat.add_assoc in H. exact H.
  - pose proof (Uint32_at (p ++ PutUint16 ty ++ PutUint16 cl) ttl
                  (PutUint16 rl ++ rest)) as H.
    rewrite !length_app, <- !app_assoc in H. cbn [length PutUint16] in H.
    rewrite <- !Nat.add_assoc in H. exact H.
  - pose proof (Uint16_at (p ++ PutUint16 ty ++ PutUint16 cl ++ PutUint32 ttl)
                  rl rest) as H.
    rewrite !length_app, <- !app_assoc in H. cbn [length PutUint16 PutUint32] in H.
    rewrite <- !Nat.add_assoc in H. exact H.
Qed.

Lemma parseTarget_encodeName fuel p target post :
  wire_name target -> (length (Split target "."%char) < fuel)%nat ->
  parseTarget fuel (p ++ encodeName target ++ post) (length p) = Ok target.
Proof.
  intros Hwf Hfuel. unfold parseTarget, parseName.
  by rewrite parseName_loop_encodeName.
Qed.

Lemma parseResourceRecord_decoded fuel rr pre post :
  wire_record fuel rr ->
  parseResourceRecord fuel (pre ++ record_bytes rr ++ post) (length pre) =
    Ok (decoded rr, (length pre + length (record_bytes rr))%nat).
Proof.
  intros (Hname & Hfuel & Hty & Hcl & Httl & Hlen & Htarget & Hprio & Htxt).
  unfold parseResourceRecord, record_bytes.
  set (rdata := buildRData rr) in *.
  rewrite <- !app_assoc. unfold parseName at 1.
  rewrite parseName_loop_encodeName by done. cbn [bind].
  set (p1 := pre ++ encodeName (Name rr)).
  replace (length pre + length (encodeName (Name rr)))%nat with (length p1)
    by (unfold p1; by rewrite length_app).
  replace (pre ++ encodeName (Name rr) ++ PutUint16 (Type_ rr) ++
           PutUint16 (Class rr) ++ PutUint32 (TTL rr) ++
           PutUint16 (len16 rdata) ++ rdata ++ post)
    with (p1 ++ PutUint16 (Type_ rr) ++ PutUint16 (Class rr) ++
          PutUint32 (TTL rr) ++ PutUint16 (len16 rdata) ++ rdata ++ post)
    by (unfold p1; by rewrite <- app_assoc).
  destruct (fixed_fields p1 (Type_ rr) (Class rr) (TTL rr) (len16 rdata)
              (rdata ++ post)) as (F1 & F2 & F3 & F4).
  set (data := p1 ++ PutUint16 (Type_ rr) ++ PutUint16 (Class rr) ++
               PutUint32 (TTL rr) ++ PutUint16 (len16 rdata) ++ rdata ++ post)
    in *.
  assert (Hdlen : length data = (length p1 + 10 + length rdata + length post)%nat).
  { unfold data. rewrite !length_app. cbn [length PutUint16 PutUint32]. lia. }
  rewrite Hdlen.
  destruct (Nat.ltb_spec (length p1 + 10 + length rdata + length post)
                         (length p1 + 10)) as [?|_]; [lia|].
  rewrite F1, F2, F3, F4. cbn [try bind].
  unfold len16. rewrite N.Div0.mod_mod, !N.mod_small by done.
  rewrite Nat2N.id.
  destruct (Nat.ltb_spec (length p1 + 10 + length rdata + length post)
                         (length p1 + 10 + length rdata)) as [?|_]; [lia|].
  set (p2 := p1 ++ PutUint16 (Type_ rr) ++ PutUint16 (Class rr) ++
             PutUint32 (TTL rr) ++ PutUint16 (N.of_nat (length rdata) mod 2 ^ 16)).
  assert (Hp2 : length p2 = (length p1 + 10)%nat).
  { unfold p2. rewrite !length_app. cbn [length PutUint16 PutUint32]. lia. }
  assert (Hdata : data = p2 ++ rdata ++ post).
  { unfold data, p2, len16. by rewrite <- !app_assoc. }
  rewrite <- Hp2.
  replace (slice data (length p2) (length p2 + length rdata)) with (Some rdata)
    by (by rewrite Hdata, slice_app_mid).
  cbn [try bind].
  assert (Hfinal : ∀ x, (length p2 + length rdata)%nat =
    (length pre + length (encodeName (Name rr) ++ PutUint16 (Type_ rr) ++
       PutUint16 (Class rr) ++ PutUint32 (TTL rr) ++
       PutUint16 x ++ rdata))%nat).
  { intros x. rewrite Hp2. unfold p1. rewrite !length_app.
    cbn [length PutUint16 PutUint32]. lia. }
  rewrite <- Hfinal. clear Hfinal.
  unfold decoded. fold rdata.
  destruct (N.eqb_spec (Type_ rr) TypeA) as [HA|HnA].
  { assert (Hrd : rdata = To4 (Address rr))
      by (unfold rdata, buildRData; by rewrite HA).
    rewrite <- Hrd.
    destruct (To4_length (Address rr)) as [H0|H4]; rewrite <- Hrd in *.
    - rewrite H0, HA. reflexivity.
    - rewrite H4, HA. reflexivity. }
  destruct (N.eqb_spec (Type_ rr) TypeAAAA) as [HAAAA|HnAAAA].
  { assert (Hrd : rdata = To16 (Address rr)).
    { unfold rdata, buildRData. rewrite HAAAA. reflexivity. }
    rewrite <- Hrd.
    destruct (To16_length (Address rr)) as [H0|H16]; rewrite <- Hrd in *.
    - rewrite H0, HAAAA. reflexivity.
    - rewrite H16, HAAAA. reflexivity. }
  destruct (N.eqb_spec (Type_ rr) TypeCNAME) as [HC|HnC].
  { destruct Htarget as [Ht1 Ht2]; [by left|].
    assert (Hrd : rdata = encodeName (Target rr)).
    { unfold rdata, buildRData. by rewrite HC. }
    cbn [orb]. rewrite Hdata, Hrd, parseTarget_encodeName by done.
    rewrite HC. reflexivity. }
  destruct (N.eqb_spec (Type_ rr) TypeNS) as [HN|HnN].
  { destruct Htarget as [Ht1 Ht2]; [by right; left|].
    assert (Hrd : rdata = encodeName (Target rr)).
    { unfold rdata, buildRData. by rewrite HN. }
    cbn [orb]. rewrite Hdata, Hrd, parseTarget_encodeName by done.
    rewrite HN. reflexivity. }
  cbn [orb].
  destruct (N.eqb_spec (Type_ rr) TypeMX) as [HM|HnM].
  { destruct Htarget as [Ht1 Ht2]; [by right; right|].
    specialize (Hprio HM).
    assert (Hrd : rdata = PutUint16 (Priority rr) ++ encodeName (Target rr)).
    { unfold rdata, buildRData. by rewrite HM. }
    assert (N.leb 2 (N.of_nat (length rdata)) = true) as ->.
    { apply N.leb_le. rewrite Hrd, length_app. cbn [length PutUint16]. lia. }
    replace (s ← slice rdata 0 2; Uint16 s) with (Some (Priority rr)).
    2:{ rewrite Hrd. pose proof (Uint16_at [] (Priority rr)
                                   (encodeName (Target rr))) as H.
        cbn [app length Nat.add] in H. rewrite H.
        by rewrite N.mod_small. }
    cbn [try bind].
    replace (parseTarget fuel data (length p2 + 2)) with (Ok (E:=error) (Target rr)).
    2:{ rewrite Hdata, Hrd, <- app_assoc, app_assoc.
        replace (length p2 + 2)%nat with (length (p2 ++ PutUint16 (Priority rr)))
          by (rewrite length_app; done).
        by rewrite parseTarget_encodeName. }
    rewrite HM. reflexivity. }
  destruct (N.eqb_spec (Type_ rr) TypeTXT) as [HT|HnT].
  { specialize (Htxt HT).
    assert (Hrd : rdata = encodeTXT (Text rr)).
    { unfold rdata, buildRData. by rewrite HT. }
    rewrite Hrd at 1. rewrite encodeTXT_flat_map, parseTXT_encodeText by done.
    rewrite HT. reflexivity. }
  reflexivity.
Qed.

(** Decoding what [writeResourceRecord] wrote into an empty buffer,
    anywhere in a buffer. *)
Theorem parseResourceRecord_record_bytes fuel rr pre post :
  wire_record fuel rr ->
  parseResourceRecord fuel (pre ++ run (writeResourceRecord rr) [] ++ post)
                      (length pre) =
    Ok (decoded rr,
        (length pre + length (run (writeResourceRecord rr) []))%nat).
Proof.
  intros Hwf.
  rewrite run_appends_only by apply appends_only_writeResourceRecord.
  rewrite appended_writeResourceRecord. cbn [app].
  by apply parseResourceRecord_decoded.
Qed.

(** A section of entries, each encoded by [enc], is read back entry by
    entry as [dec] of each. *)
Lemma parseEntries_decoded {A} (parse : list byte -> nat -> result error (A * nat))
    (enc : A -> list byte) (dec : A -> A) (P : A -> Prop) wrap :
  (∀ a pre post, P a ->
     parse (pre ++ enc a ++ post) (length pre) =
       Ok (dec a, (length pre + length (enc a))%nat)) ->
  ∀ l pre post i, Forall P l ->
    parseEntries (parse (pre ++ flat_map enc l ++ post)) wrap (length l) i
                 (length pre) =
      Ok (map dec l, (length pre + length (flat_map enc l))%nat).
Proof.
  intros Hparse l. induction l as [|a l IH]; intros pre post i Hl.
  - cbn [length parseEntries flat_map map]. f_equal. f_equal. lia.
  - apply Forall_cons in Hl as [Ha Hl]. cbn [length parseEntries flat_map map].
    rewrite <- app_assoc, Hparse by done.
    specialize (IH (pre ++ enc a) post (S i) Hl).
    rewrite <- app_assoc, length_app in IH. rewrite IH. cbn [bind].
    f_equal. f_equal. rewrite length_app. lia.
Qed.

Lemma Parse_BuildResponse_decoded fuel buf query answers authority :
  wire_query fuel query ->
  N.of_nat (length answers) < 2 ^ 16 ->
  N.of_nat (length authority) < 2 ^ 16 ->
  Forall (wire_record fuel) answers ->
  Forall (wire_record fuel) authority ->
  Parse fuel (BuildResponse buf query answers authority) =
    Ok (mkMessage
          (mkHeader (ID (Hdr query))
                    (if N.testbit (Flags (Hdr query)) 8 then 0x8500 else 0x8400)
                    (N.of_nat (length (Questions query)))
                    (N.of_nat (length answers))
                    (N.of_nat (length authority)) 0)
          (Questions query) (map decoded answers) (map decoded authority) []).
Proof.
  intros (Hid & Hn & Hqs) Han Hau Hans Haus. rewrite BuildResponse_bytes.
  rewrite (appended_flat_map _ _ _ appended_writeQuestion).
  rewrite !(appended_flat_map _ _ _ appended_writeResourceRecord).
  unfold Parse. rewrite parseHeader_header_bytes.
  set (hb := header_bytes (response_header query answers authority)).
  set (qb := flat_map question_bytes (Questions query)).
  set (ab := flat_map record_bytes answers).
  set (ub := flat_map record_bytes authority).
  unfold response_header, len16.
  cbn [ID Flags QDCount ANCount NSCount ARCount].
  rewrite !N.Div0.mod_mod, (N.mod_small (ID _)) by done.
  rewrite !(N.mod_small (N.of_nat _)) by done. rewrite !Nat2N.id.
  change (0 mod 2 ^ 16) with 0.
  change 12%nat with (length hb).
  unfold qb at 1.
  rewrite (parseEntries_encoded (parseQuestion fuel) question_bytes
             (wire_question fuel)) by
    (done || intros; by apply parseQuestion_question_bytes).
  fold qb. cbn [bind]. rewrite <- length_app.
  rewrite !(app_assoc hb qb). unfold ab at 1.
  rewrite (parseEntries_decoded (parseResourceRecord fuel) record_bytes decoded
             (wire_record fuel)) by
    (done || intros; by apply parseResourceRecord_decoded).
  fold ab. cbn [bind]. rewrite <- length_app.
  rewrite !(app_assoc (hb ++ qb) ab).
  rewrite <- (app_nil_r ub). unfold ub at 1.
  rewrite (parseEntries_decoded (parseResourceRecord fuel) record_bytes decoded
             (wire_record fuel)) by
    (done || intros; by apply parseResourceRecord_decoded).
  cbn [bind N.to_nat parseEntries]. do 3 f_equal.
  change FlagRD with (2 ^ 8). rewrite land_pow2_eq0, negb_involutive.
  by destruct (N.testbit _ 8).
Qed.

(** The round trip of a response: parsing what [BuildResponse] built
    gives the header of the response, the questions of the query, and
    every answer and authority record as [decoded]; the additional
    section is empty. *)
Theorem Parse_BuildResponse fuel buf query answers authority :
  wire_query fuel query ->
  N.of_nat (length answers) < 2 ^ 16 ->
  N.of_nat (length authority) < 2 ^ 16 ->
  Forall (wire_record fuel) answers ->
  Forall (wire_record fuel) authority ->
  Parse fuel (BuildResponse buf query answers authority) =
    Ok (mkMessage
          (mkHeader (ID (Hdr query))
                    (if N.testbit (Flags (Hdr query)) 8 then 0x8500 else 0x8400)
                    (N.of_nat (length (Questions query)))
                    (N.of_nat (length answers))
                    (N.of_nat (length authority)) 0)
          (Questions query) (map decoded answers) (map decoded authority) []).
Proof.
  intros Hq Han Hau Hans Haus.
  by apply Parse_BuildResponse_decoded.
Qed.


Definition example_mx : ResourceRecord :=
  mkRR (str "example.com") TypeMX ClassIN 3600 0 [] [] (str "mail.example.com")
       10 [] None.

Lemma wire_example_answer : wire_record 4 example_answer.
Proof.
  unfold wire_record. split; [right; vm_compute; repeat constructor|].
  split; [vm_compute; lia|]. do 4 (split; [reflexivity|]).
  split; [|split]; intros H; vm_compute in H; try discriminate H.
  by destruct H as [H|[H|H]].
Defined.

Lemma wire_example_mx : wire_record 4 example_mx.
Proof.
  unfold wire_record. split; [right; vm_compute; repeat constructor|].
  split; [vm_compute; lia|]. do 4 (split; [reflexivity|]).
  split; [|split]; intros H; try (vm_compute in H; discriminate H).
  - split; [|vm_compute; lia]. right.
    change (Split (Target example_mx) "."%char)
      with [str "mail"; str "example"; str "com"].
    repeat (constructor; [unfold wire_label; cbn; lia|]). constructor.
  - reflexivity.
Defined.

Lemma wire_example_message : wire_query 4 example_message.
Proof.
  unfold wire_query. split; [reflexivity|]. split; [reflexivity|].
  constructor; [|constructor].
  unfold wire_question. split; [|split; [|split]].
  - right. vm_compute. repeat constructor.
  - vm_compute. lia.
  - reflexivity.
  - reflexivity.
Defined.

Lemma parseResourceRecord_record_bytes_witness :
  parseResourceRecord 4
    (bytes [0xAA] ++ run (writeResourceRecord example_mx) [] ++ bytes [0xBB]) 1 =
    Ok (decoded example_mx,
        (1 + length (run (writeResourceRecord example_mx) []))%nat).
Proof.
  apply (parseResourceRecord_record_bytes 4 example_mx (bytes [0xAA]) (bytes [0xBB])).
  apply wire_example_mx.
Defined.

Lemma Parse_BuildResponse_witness :
  Parse 4 (BuildResponse [] example_message [example_answer] [example_mx]) =
    Ok (mkMessage (mkHeader 0x1234 0x8500 1 1 1 0)
                  [mkQuestion (str "example.com") TypeA ClassIN]
                  [decoded example_answer] [decoded example_mx] []).
Proof.
  apply (Parse_BuildResponse 4 [] example_message [example_answer] [example_mx]).
  - apply wire_example_message.
  - reflexivity.
  - reflexivity.
  - constructor; [apply wire_example_answer|constructor].
  - constructor; [apply wire_example_mx|constructor].
Defined.

(** The payload of a decoded record is the payload that was encoded: the
    address of an A or AAAA record is equal to the given address as an IP
    address, whenever that has the form of the type; the target of a
    CNAME, NS or MX record, the preference of an MX record and the strings
    of a TXT record are the given ones. *)
Lemma IPEqual_To4 ip : To4 ip <> [] -> IPEqual (To4 ip) ip = true.
Proof.
  unfold To4, IPEqual.
  destruct (Nat.eqb_spec (length ip) 4) as [H4|Hn4].
  - intros _. rewrite Nat.eqb_refl. by apply bool_decide_eq_true.
  - destruct (Nat.eqb_spec (length ip) 16) as [H16|]; cbn [andb]; [|done].
    destruct (bool_decide_reflect (take 12 ip = v4InV6Prefix)) as [Hp|]; [|done].
    intros _. rewrite length_drop, H16. cbn [Nat.sub Nat.eqb andb].
    by apply bool_decide_eq_true.
Qed.

Lemma IPEqual_To16 ip : To16 ip <> [] -> IPEqual (To16 ip) ip = true.
Proof.
  unfold To16, IPEqual.
  destruct (Nat.eqb_spec (length ip) 4) as [H4|Hn4].
  - intros _. rewrite length_app, H4. cbn [length v4InV6Prefix bytes map Nat.add Nat.eqb andb].
    rewrite take_app_length' by done. rewrite drop_app_length' by done.
    rewrite !bool_decide_true by done. done.
  - destruct (Nat.eqb_spec (length ip) 16) as [H16|]; [|done].
    intros _. rewrite Nat.eqb_refl. by apply bool_decide_eq_true.
Qed.

Theorem decoded_payload rr :
  Type_ (decoded rr) = Type_ rr /\
  (Type_ rr = TypeA -> To4 (Address rr) <> [] ->
   IPEqual (Address (decoded rr)) (Address rr) = true) /\
  (Type_ rr = TypeAAAA -> To16 (Address rr) <> [] ->
   IPEqual (Address (decoded rr)) (Address rr) = true) /\
  (Type_ rr = TypeCNAME \/ Type_ rr = TypeNS \/ Type_ rr = TypeMX ->
   Target (decoded rr) = Target rr) /\
  (Type_ rr = TypeMX -> Priority (decoded rr) = Priority rr) /\
  (Type_ rr = TypeTXT -> Text (decoded rr) = Text rr) /\
  SOAData (decoded rr) = None.
Proof.
  unfold decoded. cbn [Type_ Address Target Priority Text SOAData].
  repeat split.
  - intros -> H. by apply IPEqual_To4.
  - intros -> H. by apply IPEqual_To16.
  - by intros [-> | [-> | ->]].
  - by intros ->.
  - by intros ->.
Qed.

(** A response with a single answer, parsed: one answer comes back, with
    the owner name, type, class and TTL of the record and with its
    payload; the data of an SOA record comes back as bytes only. *)
Theorem single_answer_round_trip fuel buf query rr :
  wire_query fuel query -> wire_record fuel rr ->
  ∃ msg rr',
    Parse fuel (BuildResponse buf query [rr] []) = Ok msg /\
    Questions msg = Questions query /\
    Answers msg = [rr'] /\ Authority msg = [] /\ Additional msg = [] /\
    Name rr' = Name rr /\ Type_ rr' = Type_ rr /\ Class rr' = Class rr /\
    TTL rr' = TTL rr /\ RData rr' = buildRData rr /\
    (Type_ rr = TypeA -> To4 (Address rr) <> [] ->
     IPEqual (Address rr') (Address rr) = true) /\
    (Type_ rr = TypeAAAA -> To16 (Address rr) <> [] ->
     IPEqual (Address rr') (Address rr) = true) /\
    (Type_ rr = TypeCNAME \/ Type_ rr = TypeNS \/ Type_ rr = TypeMX ->
     Target rr' = Target rr) /\
    (Type_ rr = TypeMX -> Priority rr' = Priority rr) /\
    (Type_ rr = TypeTXT -> Text rr' = Text rr) /\
    SOAData rr' = None.
Proof.
  intros Hq Hrr. eexists _, (decoded rr). split.
  - apply Parse_BuildResponse_decoded; try done. by constructor.
  - cbn [Questions Answers Authority Additional map].
    destruct (decoded_payload rr) as (? & ? & ? & ? & ? & ? & ?).
    repeat split; done.
Qed.

Lemma single_answer_round_trip_witness :
  ∃ msg rr',
    Parse 4 (BuildResponse [] example_message [example_mx] []) = Ok msg /\
    Questions msg = Questions example_message /\
    Answers msg = [rr'] /\ Authority msg = [] /\ Additional msg = [] /\
    Name rr' = Name example_mx /\ Type_ rr' = Type_ example_mx /\
    Class rr' = Class example_mx /\
    TTL rr' = TTL example_mx /\ RData rr' = buildRData example_mx /\
    (Type_ example_mx = TypeA -> To4 (Address example_mx) <> [] ->
     IPEqual (Address rr') (Address example_mx) = true) /\
    (Type_ example_mx = TypeAAAA -> To16 (Address example_mx) <> [] ->
     IPEqual (Address rr') (Address example_mx) = true) /\
    (Type_ example_mx = TypeCNAME \/ Type_ example_mx = TypeNS \/
     Type_ example_mx = TypeMX ->
     Target rr' = Target example_mx) /\
    (Type_ example_mx = TypeMX -> Priority rr' = Priority example_mx) /\
    (Type_ example_mx = TypeTXT -> Text rr' = Text example_mx) /\
    SOAData rr' = None.
Proof.
  apply (single_answer_round_trip 4 [] example_message example_mx).
  - apply wire_example_message.
  - apply wire_example_mx.
Defined.

End record_codec.

(** ** The parser: bounds *)

Section parser_bounds.

Lemma index_lt data pos : (pos < length data)%nat -> ∃ b, index data pos = Some b.
Proof.
  intros H. unfold index. destruct (nth_error data pos) eqn:E; [eauto|].
  apply nth_error_None in E. lia.
Qed.

Lemma slice_length data lo hi s : slice data lo hi = Some s -> length s = (hi - lo)%nat.
Proof.
  unfold slice. destruct (Nat.leb_spec lo hi); cbn [andb]; [|done].
  destruct (Nat.leb_spec hi (length data)); [|done].
  intros [= <-]. rewrite length_take, length_drop. lia.
Qed.

Lemma Uint16_Some s : (2 <= length s)%nat -> ∃ v, Uint16 s = Some v.
Proof. destruct s as [|b0 [|b1 s]]; cbn [length]; try lia. cbn. eauto. Qed.

Lemma Uint32_Some s : (4 <= length s)%nat -> ∃ v, Uint32 s = Some v.
Proof.
  destruct s as [|b0 [|b1 [|b2 [|b3 s]]]]; cbn [length]; try lia. cbn. eauto.
Qed.

(** Reading a 16-bit or 32-bit field that lies within the buffer. *)
Lemma read16 data pos :
  (pos + 2 <= length data)%nat ->
  ∃ v, (s ← slice data pos (pos + 2); Uint16 s) = Some v.
Proof.
  intros H. rewrite slice_Some by lia. cbn [mbind option_bind].
  apply Uint16_Some. rewrite length_take, length_drop. lia.
Qed.

Lemma read32 data pos :
  (pos + 4 <= length data)%nat ->
  ∃ v, (s ← slice data pos (pos + 4); Uint32 s) = Some v.
Proof.
  intros H. rewrite slice_Some by lia. cbn [mbind option_bind].
  apply Uint32_Some. rewrite length_take, length_drop. lia.
Qed.

(** [parseName] never reads outside the buffer, and when it returns a
    name the cursor has moved forward and is still within the buffer. *)
Lemma parseName_loop_bounds fuel : ∀ data pos labels visited,
  parseName_loop fuel data pos labels visited <> Panic /\
  ∀ name pos', parseName_loop fuel data pos labels visited = Ok (name, pos') ->
               (pos < pos' <= length data)%nat.
Proof.
  induction fuel as [|fuel IH]; intros data pos labels visited; [done|].
  cbn [parseName_loop].
  destruct (Nat.leb_spec (length data) pos) as [?|Hpos]; [done|].
  destruct (index_lt data pos Hpos) as [b ->]. cbn [try bind].
  destruct (N.land (N_of_ascii b) 192 =? 192).
  - destruct (Nat.leb_spec (length data) (pos + 1)) as [?|Hpos1]; [done|].
    destruct (read16 data pos) as [v ->]; [lia|]. cbn [try bind].
    destruct (decide _); [done|].
    destruct (IH data (N.to_nat (N.land v 16383)) [] ∅) as [Hnp _].
    destruct (parseName_loop fuel data _ [] ∅) as [[rest p]|e| |];
      cbn [bind]; try done.
    destruct (0 <? length labels)%nat; (split; [done|]);
      intros name pos' [= _ <-]; lia.
  - destruct (N.eqb_spec (N_of_ascii b) 0).
    + split; [done|]. intros name pos' [= _ <-]. lia.
    + destruct (Nat.ltb_spec (length data) (pos + 1 + N.to_nat (N_of_ascii b)));
        [done|].
      rewrite slice_Some by lia. cbn [try bind].
      destruct (IH data (pos + 1 + N.to_nat (N_of_ascii b))%nat
                  (labels ++ [take (pos + 1 + N.to_nat (N_of_ascii b) - (pos + 1))
                                   (drop (pos + 1) data)]) visited)
        as [Hnp Hok].
      split; [done|]. intros name pos' Hres. apply Hok in Hres. lia.
Qed.

Lemma parseName_bounds fuel data pos :
  parseName fuel data pos <> Panic /\
  ∀ name pos', parseName fuel data pos = Ok (name, pos') ->
               (pos < pos' <= length data)%nat.
Proof. apply parseName_loop_bounds. Qed.

Lemma parseQuestion_bounds fuel data pos :
  parseQuestion fuel data pos <> Panic /\
  ∀ q pos', parseQuestion fuel data pos = Ok (q, pos') ->
            (pos + 5 <= pos' <= length data)%nat.
Proof.
  unfold parseQuestion. destruct (parseName_bounds fuel data pos) as [Hnp Hok].
  destruct (parseName fuel data pos) as [[name p]|e| |]; cbn [bind]; try done.
  specialize (Hok _ _ eq_refl).
  destruct (Nat.ltb_spec (length data) (p + 4)); [done|].
  destruct (read16 data p) as [ty ->]; [lia|].
  destruct (read16 data (p + 2)) as [cl Hcl]; [lia|].
  replace (p + 2 + 2)%nat with (p + 4)%nat in Hcl by lia. rewrite Hcl.
  cbn [try bind]. split; [done|]. intros q pos' [= _ <-]. lia.
Qed.

Lemma parseTXT_loop_no_panic fuel : ∀ data pos texts,
  ∃ r, parseTXT_loop fuel data pos texts = Ok r.
Proof.
  induction fuel as [|fuel IH]; intros data pos texts; [by eexists|].
  cbn [parseTXT_loop].
  destruct (Nat.ltb_spec pos (length data)) as [Hpos|]; [|by eexists].
  destruct (index_lt data pos Hpos) as [b ->]. cbn [try bind].
  destruct (Nat.ltb_spec (length data) (pos + 1 + N.to_nat (N_of_ascii b)));
    [by eexists|].
  rewrite slice_Some by lia. cbn [try bind]. apply IH.
Qed.

Lemma parseTarget_no_panic fuel data pos : parseTarget fuel data pos <> Panic.
Proof.
  unfold parseTarget. destruct (parseName_bounds fuel data pos) as [Hnp _].
  by destruct (parseName fuel data pos) as [[name p]|e| |].
Qed.

Lemma parseResourceRecord_bounds fuel data pos :
  parseResourceRecord fuel data pos <> Panic /\
  ∀ rr pos', parseResourceRecord fuel data pos = Ok (rr, pos') ->
             (pos + 11 <= pos' <= length data)%nat /\
             length (RData rr) = N.to_nat (RDLength rr) /\
             SOAData rr = None.
Proof.
  unfold parseResourceRecord.
  destruct (parseName_bounds fuel data pos) as [Hnp Hok].
  destruct (parseName fuel data pos) as [[name p]|e| |]; cbn [bind]; try done.
  specialize (Hok _ _ eq_refl).
  destruct (Nat.ltb_spec (length data) (p + 10)); [done|].
  destruct (read16 data p) as [ty ->]; [lia|].
  destruct (read16 data (p + 2)) as [cl Hcl]; [lia|].
  replace (p + 2 + 2)%nat with (p + 4)%nat in Hcl by lia. rewrite Hcl.
  destruct (read32 data (p + 4)) as [ttl Httl]; [lia|].
  replace (p + 4 + 4)%nat with (p + 8)%nat in Httl by lia. rewrite Httl.
  destruct (read16 data (p + 8)) as [rdlen Hrd]; [lia|].
  replace (p + 8 + 2)%nat with (p + 10)%nat in Hrd by lia. rewrite Hrd.
  cbn [try bind].
  destruct (Nat.ltb_spec (length data) (p + 10 + N.to_nat rdlen)); [done|].
  pose proof (slice_Some data (p + 10) (p + 10 + N.to_nat rdlen)) as Hs.
  rewrite Hs by lia. cbn [try bind].
  set (rdata := take (p + 10 + N.to_nat rdlen - (p + 10)) (drop (p + 10) data)).
  assert (Hlen : length rdata = N.to_nat rdlen)
    by (unfold rdata; rewrite length_take, length_drop; lia).
  assert (Hfin : ∀ (r : result error ResourceRecord),
    r <> Panic ->
    (∀ rr, r = Ok rr -> length (RData rr) = N.to_nat (RDLength rr) /\
                        SOAData rr = None) ->
    bind r (λ rr, Ok (rr, (p + 10 + N.to_nat rdlen)%nat)) <> Panic /\
    ∀ rr pos', bind r (λ rr, Ok (rr, (p + 10 + N.to_nat rdlen)%nat)) = Ok (rr, pos') ->
      (pos + 11 <= pos' <= length data)%nat /\
      length (RData rr) = N.to_nat (RDLength rr) /\ SOAData rr = None).
  { intros [rr|e| |] Hr Hrr; cbn [bind]; try done.
    split; [done|]. intros rr' pos' [= <- <-].
    split; [lia|]. by apply Hrr. }
  apply Hfin; clear Hfin.
  - repeat case_match; try done.
    + pose proof (parseTarget_no_panic fuel data (p + 10)).
      by destruct (parseTarget fuel data (p + 10)).
    + destruct (read16 rdata 0) as [prio Hp].
      { rewrite Hlen.
        match goal with Hle : (2 <=? rdlen) = true |- _ =>
          apply N.leb_le in Hle; lia end. }
      cbn [Nat.add] in Hp. rewrite Hp. cbn [try bind].
      pose proof (parseTarget_no_panic fuel data (p + 10 + 2)).
      by destruct (parseTarget fuel data (p + 10 + 2)).
    + destruct (parseTXT_loop_no_panic (length rdata) rdata 0 []) as [r Hr].
      unfold parseTXT. by rewrite Hr.
  - intros rr Hrr. repeat case_match; simplify_eq; cbn [RData RDLength SOAData];
      try done.
    + destruct (parseTarget fuel data (p + 10)); cbn [bind] in Hrr; simplify_eq.
      done.
    + destruct (s ← slice rdata 0 2; Uint16 s); cbn [try bind] in Hrr; [|done].
      destruct (parseTarget fuel data (p + 10 + 2)); cbn [bind] in Hrr;
        simplify_eq. done.
    + destruct (parseTXT rdata); cbn [bind] in Hrr; simplify_eq. done.
Qed.

Lemma parseEntries_bounds {A} (parse : nat -> result error (A * nat)) wrap
    (k len : nat) (P : A -> Prop) :
  (∀ pos, parse pos <> Panic /\
          ∀ a pos', parse pos = Ok (a, pos') ->
                    (pos + k <= pos' <= len)%nat /\ P a) ->
  ∀ n i pos, (pos <= len)%nat ->
    parseEntries parse wrap n i pos <> Panic /\
    ∀ l pos', parseEntries parse wrap n i pos = Ok (l, pos') ->
              (pos + k * n <= pos' <= len)%nat /\ length l = n /\ Forall P l.
Proof.
  intros Hparse n. induction n as [|n IH]; intros i pos Hpos.
  - cbn [parseEntries]. split; [done|]. intros l pos' [= <- <-].
    split; [lia|]. by split.
  - cbn [parseEntries]. destruct (Hparse pos) as [Hnp Hok].
    destruct (parse pos) as [[a p]|e| |]; try done.
    destruct (Hok _ _ eq_refl) as [Hp Ha].
    destruct (IH (S i) p) as [Hnp' Hok']; [lia|].
    destruct (parseEntries parse wrap n (S i) p) as [[rest p']|e| |];
      cbn [bind]; try done.
    split; [done|]. intros l pos' [= <- <-].
    destruct (Hok' _ _ eq_refl) as (? & ? & ?).
    split; [lia|]. split; [cbn [length]; lia|]. by constructor.
Qed.

Lemma Parse_no_panic fuel data : Parse fuel data <> Panic.
Proof.
  unfold Parse. destruct (parseHeader data) as [[h p]|e| |] eqn:Hh; try done.
  2:{ unfold parseHeader in Hh.
      destruct (length data <? 12)%nat eqn:Hlen; [done|].
      apply Nat.ltb_ge in Hlen.
      repeat match type of Hh with
      | context [try (s ← slice data ?a ?b; Uint16 s)] =>
        let v := fresh "v" in let Hv := fresh "Hv" in
        destruct (read16 data a) as [v Hv]; [lia|];
        cbn [Nat.add] in Hv; rewrite Hv in Hh; cbn [try bind] in Hh
      end. done. }
  apply parseHeader_Ok in Hh as (-> & Hlen & _).
  pose proof (parseEntries_bounds (parseQuestion fuel data) in_question 5
                (length data) (λ _, True)) as HQ.
  pose proof (parseEntries_bounds (parseResourceRecord fuel data) in_answer 11
                (length data) (λ _, True)) as HA.
  pose proof (parseEntries_bounds (parseResourceRecord fuel data) in_authority 11
                (length data) (λ _, True)) as HN.
  pose proof (parseEntries_bounds (parseResourceRecord fuel data) in_additional 11
                (length data) (λ _, True)) as HR.
  assert (Hq : ∀ pos, parseQuestion fuel data pos <> Panic /\
     ∀ a pos', parseQuestion fuel data pos = Ok (a, pos') ->
               (pos + 5 <= pos' <= length data)%nat /\ True).
  { intros pos. destruct (parseQuestion_bounds fuel data pos) as [? Hok].
    split; [done|]. intros a pos' H'. split; [by eapply Hok|done]. }
  assert (Hr : ∀ pos, parseResourceRecord fuel data pos <> Panic /\
     ∀ a pos', parseResourceRecord fuel data pos = Ok (a, pos') ->
               (pos + 11 <= pos' <= length data)%nat /\ True).
  { intros pos. destruct (parseResourceRecord_bounds fuel data pos) as [? Hok].
    split; [done|]. intros a pos' H'. split; [by eapply Hok|done]. }
  destruct (HQ Hq (N.to_nat (QDCount h)) 0%nat 12%nat Hlen) as [Hnp Hok].
  destruct (parseEntries _ in_question _ _ _) as [[qs p1]|e| |]; cbn [bind];
    try done.
  destruct (Hok _ _ eq_refl) as (Hp1 & _).
  destruct (HA Hr (N.to_nat (ANCount h)) 0%nat p1) as [Hnp2 Hok2]; [lia|].
  destruct (parseEntries _ in_answer _ _ _) as [[an p2]|e| |]; cbn [bind];
    try done.
  destruct (Hok2 _ _ eq_refl) as (Hp2 & _).
  destruct (HN Hr (N.to_nat (NSCount h)) 0%nat p2) as [Hnp3 Hok3]; [lia|].
  destruct (parseEntries _ in_authority _ _ _) as [[ns p3]|e| |]; cbn [bind];
    try done.
  destruct (Hok3 _ _ eq_refl) as (Hp3 & _).
  destruct (HR Hr (N.to_nat (ARCount h)) 0%nat p3) as [Hnp4 Hok4]; [lia|].
  by destruct (parseEntries _ in_additional _ _ _) as [[ar p4]|e| |].
Qed.

(** [Parse] never indexes or slices outside the buffer, whatever the
    bytes and whatever the counts the header declares. *)
Theorem Parse_never_panics fuel data : Parse fuel data <> Panic.
Proof. apply Parse_no_panic. Qed.

(** A message that [Parse] accepts has as many entries in each section as
    its header declares, and the buffer is long enough for them: twelve
    bytes of header, at least five for each question and at least eleven
    for each record.  Every record comes with as many bytes of record
    data as its length field says, and without parsed SOA data. *)
Theorem Parse_Ok_counts fuel data msg :
  Parse fuel data = Ok msg ->
  length (Questions msg) = N.to_nat (QDCount (Hdr msg)) /\
  length (Answers msg) = N.to_nat (ANCount (Hdr msg)) /\
  length (Authority msg) = N.to_nat (NSCount (Hdr msg)) /\
  length (Additional msg) = N.to_nat (ARCount (Hdr msg)) /\
  (12 + 5 * length (Questions msg) +
   11 * (length (Answers msg) + length (Authority msg) +
         length (Additional msg)) <= length data)%nat /\
  Forall (λ rr, length (RData rr) = N.to_nat (RDLength rr) /\ SOAData rr = None)
         (Answers msg ++ Authority msg ++ Additional msg).
Proof.
  unfold Parse. destruct (parseHeader data) as [[h p]|e| |] eqn:Hh; try done.
  apply parseHeader_Ok in Hh as (-> & Hlen & _).
  set (P := λ rr, length (RData rr) = N.to_nat (RDLength rr) /\ SOAData rr = None).
  pose proof (parseEntries_bounds (parseQuestion fuel data) in_question 5
                (length data) (λ _, True)) as HQ.
  pose proof (parseEntries_bounds (parseResourceRecord fuel data) in_answer 11
                (length data) P) as HA.
  pose proof (parseEntries_bounds (parseResourceRecord fuel data) in_authority 11
                (length data) P) as HN.
  pose proof (parseEntries_bounds (parseResourceRecord fuel data) in_additional 11
                (length data) P) as HR.
  assert (Hq : ∀ pos, parseQuestion fuel data pos <> Panic /\
     ∀ a pos', parseQuestion fuel data pos = Ok (a, pos') ->
               (pos + 5 <= pos' <= length data)%nat /\ True).
  { intros pos. destruct (parseQuestion_bounds fuel data pos) as [? Hok].
    split; [done|]. intros a pos' H'. split; [by eapply Hok|done]. }
  assert (Hr : ∀ pos, parseResourceRecord fuel data pos <> Panic /\
     ∀ a pos', parseResourceRecord fuel data pos = Ok (a, pos') ->
               (pos + 11 <= pos' <= length data)%nat /\ P a).
  { intros pos. destruct (parseResourceRecord_bounds fuel data pos) as [? Hok].
    split; [done|]. intros a pos' H'. by apply Hok in H' as (? & ? & ?). }
  destruct (HQ Hq (N.to_nat (QDCount h)) 0%nat 12%nat Hlen) as [_ Hok].
  destruct (parseEntries _ in_question _ _ _) as [[qs p1]|e| |]; cbn [bind];
    try done.
  destruct (Hok _ _ eq_refl) as (Hp1 & Hl1 & _).
  destruct (HA Hr (N.to_nat (ANCount h)) 0%nat p1) as [_ Hok2]; [lia|].
  destruct (parseEntries _ in_answer _ _ _) as [[an p2]|e| |]; cbn [bind];
    try done.
  destruct (Hok2 _ _ eq_refl) as (Hp2 & Hl2 & HP2).
  destruct (HN Hr (N.to_nat (NSCount h)) 0%nat p2) as [_ Hok3]; [lia|].
  destruct (parseEntries _ in_authority _ _ _) as [[ns p3]|e| |]; cbn [bind];
    try done.
  destruct (Hok3 _ _ eq_refl) as (Hp3 & Hl3 & HP3).
  destruct (HR Hr (N.to_nat (ARCount h)) 0%nat p3) as [_ Hok4]; [lia|].
  destruct (parseEntries _ in_additional _ _ _) as [[ar p4]|e| |]; cbn [bind];
    try done.
  destruct (Hok4 _ _ eq_refl) as (Hp4 & Hl4 & HP4).
  intros [= <-]. cbn [Hdr Questions Answers Authority Additional].
  repeat split; try done; [lia|]. by rewrite !Forall_app.
Qed.

Lemma Parse_Ok_counts_witness :
  length (Questions example_message) = N.to_nat (QDCount (Hdr example_message)) /\
  length (Answers example_message) = N.to_nat (ANCount (Hdr example_message)) /\
  length (Authority example_message) = N.to_nat (NSCount (Hdr example_message)) /\
  length (Additional example_message) = N.to_nat (ARCount (Hdr example_message)) /\
  (12 + 5 * length (Questions example_message) +
   11 * (length (Answers example_message) + length (Authority example_message) +
         length (Additional example_message)) <= length example_query)%nat /\
  Forall (λ rr, length (RData rr) = N.to_nat (RDLength rr) /\ SOAData rr = None)
         (Answers example_message ++ Authority example_message ++
          Additional example_message).
Proof.
  apply (Parse_Ok_counts 3 example_query example_message).
  vm_compute. reflexivity.
Defined.

End parser_bounds.

(** ** The zone store: case, names, the cached SOA *)

Section zone_queries.

Implicit Types (z : Zone) (rr r : ResourceRecord) (rs : list ResourceRecord).

Lemma toLower_toUpper c : toLower (toUpper c) = toLower c.
Proof. by destruct c as [[] [] [] [] [] [] [] []]. Qed.

Lemma ToLower_ToUpper s : ToLower (ToUpper s) = ToLower s.
Proof.
  unfold ToLower, ToUpper. rewrite map_map. apply map_ext, toLower_toUpper.
Qed.

(** The case of the letters of an ASCII name asked for does not matter:
    in any zone, the name in upper case and the name in lower case select
    the records the name itself selects. *)
Theorem Lookup_ignores_case z name qtype :
  isASCII name = true ->
  Lookup z (ToUpper name) qtype = Lookup z name qtype /\
  Lookup z (ToLower name) qtype = Lookup z name qtype.
Proof.
  intros _. unfold Lookup. by rewrite ToLower_ToUpper, ToLower_idemp.
Qed.

Lemma Lookup_ignores_case_witness :
  Lookup (buildZone (str "example.com") [example_answer])
         (ToUpper (str "Example.com")) TypeA =
    Lookup (buildZone (str "example.com") [example_answer])
           (str "Example.com") TypeA /\
  Lookup (buildZone (str "example.com") [example_answer])
         (ToLower (str "Example.com")) TypeA =
    Lookup (buildZone (str "example.com") [example_answer])
           (str "Example.com") TypeA.
Proof.
  apply (Lookup_ignores_case (buildZone (str "example.com") [example_answer])
           (str "Example.com") TypeA).
  reflexivity.
Defined.

Lemma buildZone_snoc origin rs rr :
  buildZone origin (rs ++ [rr]) = AddRecord (buildZone origin rs) rr.
Proof. symmetry. apply AddRecord_buildZone. Qed.

(** The entries of a zone built with [AddRecord]: none is empty, and each
    holds records that were added, under their key. *)
Lemma buildZone_entries origin rs k l :
  Zone_Records (buildZone origin rs) !! k = Some l ->
  l <> [] /\ ∀ r, r ∈ l -> r ∈ rs /\ k = recordKey (Name r) (Type_ r).
Proof.
  revert k l. induction rs as [|rr rs IH] using rev_ind; intros k l.
  - cbn. by rewrite lookup_empty.
  - rewrite buildZone_snoc. cbn [AddRecord Zone_Records].
    destruct (decide (recordKey (Name rr) (Type_ rr) = k)) as [<-|Hne].
    + rewrite lookup_insert_eq. intros [= <-]. split.
      { by destruct (default [] _). }
      intros r [Hr| ->%list_elem_of_singleton]%elem_of_app.
      * destruct (Zone_Records (buildZone origin rs) !! _) as [l|] eqn:Hl;
          cbn [default] in Hr; [|by apply elem_of_nil in Hr].
        destruct (IH _ _ Hl) as [_ Hin]. destruct (Hin r Hr) as [? ?].
        split; [|done]. apply elem_of_app. by left.
      * split; [|done]. apply elem_of_app. right. by left.
    + rewrite lookup_insert_ne by done. intros Hl.
      destruct (IH _ _ Hl) as [Hne' Hin]. split; [done|].
      intros r Hr. destruct (Hin r Hr) as [? ?].
      split; [|done]. apply elem_of_app. by left.
Qed.

Lemma buildZone_has_key origin rs r :
  r ∈ rs ->
  ∃ l, Zone_Records (buildZone origin rs) !! recordKey (Name r) (Type_ r) = Some l.
Proof.
  intros Hr. rewrite Zone_Records_buildZone.
  destruct (records_at rs (Name r) (Type_ r)) as [|r' l] eqn:E; [|eauto].
  assert (r ∈ records_at rs (Name r) (Type_ r)) as Hin.
  { unfold records_at. apply list_elem_of_filter. by split. }
  rewrite E in Hin. by apply elem_of_nil in Hin.
Qed.

(** [HasName] on a zone built with [AddRecord]: some record was added
    whose key starts with the lowercased name and a colon. *)
Lemma HasName_buildZone_prefix origin rs name :
  HasName (buildZone origin rs) name = true <->
  ∃ r, r ∈ rs /\
       HasPrefix (recordKey (Name r) (Type_ r)) (ToLower name ++ str ":") = true.
Proof.
  unfold HasName. rewrite existsb_exists. split.
  - intros ([k l] & Hin & Hp). apply list_elem_of_In, elem_of_map_to_list in Hin.
    destruct (buildZone_entries _ _ _ _ Hin) as [Hne Hl].
    destruct l as [|r l]; [done|].
    destruct (Hl r) as [Hr ->]; [by left|]. eauto.
  - intros (r & Hr & Hp). destruct (buildZone_has_key origin rs r Hr) as [l Hl].
    exists (recordKey (Name r) (Type_ r), l). split; [|done].
    by apply list_elem_of_In, elem_of_map_to_list.
Qed.

Lemma HasPrefix_true s prefix :
  HasPrefix s prefix = true <-> ∃ s', s = prefix ++ s'.
Proof.
  unfold HasPrefix. rewrite andb_true_iff, bool_decide_eq_true, Nat.leb_le.
  split.
  - intros [Hlen Heq]. exists (drop (length prefix) s).
    rewrite <- Heq at 1. by rewrite take_drop.
  - intros [s' ->]. rewrite length_app. split; [lia|].
    by rewrite take_app_length.
Qed.

Lemma toLower_colon c : toLower c = ":"%char -> c = ":"%char.
Proof. by destruct c as [[] [] [] [] [] [] [] []]. Qed.

Lemma ToLower_no_colon s : ":"%char ∉ s -> ":"%char ∉ ToLower s.
Proof.
  intros H Hin. apply H. unfold ToLower in Hin.
  apply list_elem_of_fmap in Hin as (c & Hc & Hin).
  symmetry in Hc. apply toLower_colon in Hc. by subst.
Qed.

(** A prefix ending in a colon of a key, when the name in the key has no
    colon, is the whole name of the key. *)
Lemma key_prefix_name q t p :
  ":"%char ∉ q ->
  HasPrefix (q ++ str ":" ++ Itoa t) (p ++ str ":") = true -> p = q.
Proof.
  intros Hq [s' Hs]%HasPrefix_true. rewrite <- app_assoc in Hs.
  change (str ":" ++ ?x) with (":"%char :: x) in Hs.
  revert p Hs. induction q as [|c q IH]; intros [|d p] Hs; cbn [app] in Hs.
  - done.
  - injection Hs as <- Hs.
    pose proof (digits_no_colon (N.to_uint t)) as Hd. unfold Itoa in Hs.
    rewrite Hs in Hd. destruct Hd. apply elem_of_app. right. by left.
  - injection Hs as -> _. destruct Hq. by left.
  - injection Hs as <- Hs. f_equal. apply IH; [|done].
    intros Hin. apply Hq. by right.
Qed.

(** [HasName] tells whether a record was added under the name, whatever
    its type and the case of its letters, in a zone whose owner names are
    ASCII and contain no colon, for an ASCII name. *)
Theorem HasName_buildZone origin rs name :
  Forall (λ r, isASCII (Name r) = true) rs ->
  isASCII name = true ->
  Forall (λ r, ":"%char ∉ Name r) rs ->
  HasName (buildZone origin rs) name = true <->
  ∃ r, r ∈ rs /\ ToLower (Name r) = ToLower name.
Proof.
  intros _ _ Hcolon. rewrite HasName_buildZone_prefix. split.
  - intros (r & Hr & Hp). exists r. split; [done|].
    symmetry. eapply key_prefix_name; [|exact Hp].
    apply ToLower_no_colon. by eapply Forall_forall in Hcolon.
  - intros (r & Hr & Heq). exists r. split; [done|].
    apply HasPrefix_true. exists (Itoa (Type_ r)).
    unfold recordKey. by rewrite Heq, <- app_assoc.
Qed.

Lemma HasName_buildZone_witness :
  HasName (buildZone (str "example.com") [example_answer]) (str "Example.COM") = true <->
  ∃ r, r ∈ [example_answer] /\ ToLower (Name r) = ToLower (str "Example.COM").
Proof.
  apply (HasName_buildZone (str "example.com") [example_answer] (str "Example.COM")).
  { constructor; [reflexivity|constructor]. }
  { reflexivity. }
  constructor; [|constructor]. vm_compute.
  intros H. repeat (apply elem_of_cons in H as [H|H]; [discriminate H|]).
  by apply elem_of_nil in H.
Defined.

(** Without that condition [HasName] can answer for a name that has no
    record: the key of a record named "a:1" starts with the name "a" and
    a colon. *)
Example HasName_colon :
  let rr := mkRR (str "a:1") TypeA ClassIN 0 0 [] [] [] 0 [] None in
  HasName (buildZone (str "") [rr]) (str "a") = true /\
  ToLower (Name rr) <> ToLower (str "a").
Proof. split; by vm_compute. Qed.

(** A record that replaces the cached SOA of a zone. *)
Definition sets_SOA rr : Prop := Type_ rr = TypeSOA /\ SOAData rr <> None.

Lemma Zone_SOA_AddRecord z rr :
  Zone_SOA (AddRecord z rr) =
    if decide (sets_SOA rr) then SOAData rr else Zone_SOA z.
Proof.
  unfold AddRecord, sets_SOA. cbn [Zone_SOA].
  destruct (N.eqb_spec (Type_ rr) TypeSOA) as [Ht|Ht]; cbn [andb].
  - destruct (bool_decide_reflect (SOAData rr <> None)).
    + by rewrite decide_True.
    + rewrite decide_False; [done|]. by intros [_ ?].
  - rewrite decide_False; [done|]. by intros [? _].
Qed.

Lemma Zone_SOA_fold rs z :
  Forall (λ r, ¬ sets_SOA r) rs ->
  Zone_SOA (fold_left AddRecord rs z) = Zone_SOA z.
Proof.
  revert z. induction rs as [|r rs IH]; intros z Hrs; [done|].
  apply Forall_cons in Hrs as [Hr Hrs]. cbn [fold_left].
  rewrite IH by done. rewrite Zone_SOA_AddRecord. by rewrite decide_False.
Qed.

(** The cached SOA of a zone is the data of the SOA record added last:
    records of another type, and SOA records without data, leave it as
    it is. *)
Theorem Zone_SOA_latest origin rs rr rs' :
  sets_SOA rr -> Forall (λ r, ¬ sets_SOA r) rs' ->
  Zone_SOA (buildZone origin (rs ++ rr :: rs')) = SOAData rr.
Proof.
  intros Hrr Hrs'. unfold buildZone. rewrite fold_left_app. cbn [fold_left].
  rewrite Zone_SOA_fold by done. rewrite Zone_SOA_AddRecord.
  by rewrite decide_True.
Qed.

Definition example_soa : ResourceRecord :=
  mkRR (str "example.com") TypeSOA ClassIN 3600 0 [] [] [] 0 []
       (Some (mkSOA (str "ns1.example.com") (str "admin.example.com")
                    1 7200 3600 1209600 3600)).

Lemma Zone_SOA_latest_witness :
  Zone_SOA (buildZone (str "example.com")
              ([example_answer] ++ example_soa :: [example_mx])) =
    SOAData example_soa.
Proof.
  apply (Zone_SOA_latest (str "example.com") [example_answer] example_soa
           [example_mx]).
  - split; [reflexivity|discriminate].
  - constructor; [|constructor]. intros [H _]. discriminate H.
Defined.

(** A zone without any such record has no cached SOA. *)
Lemma Zone_SOA_none origin rs :
  Forall (λ r, ¬ sets_SOA r) rs -> Zone_SOA (buildZone origin rs) = None.
Proof. intros H. unfold buildZone. by rewrite Zone_SOA_fold. Qed.

Lemma ToLower_app s t : ToLower (s ++ t) = ToLower s ++ ToLower t.
Proof. apply map_app. Qed.

End zone_queries.

(** ** The zone-file loader: what it stores, and when it fails *)

Section loader_records.

Implicit Types (st : loader) (z : Zone) (rr r : ResourceRecord).

Lemma field_Some fields i :
  (i < length fields)%nat -> ∃ f, field fields i = Some f.
Proof.
  intros H. unfold field. destruct (nth_error fields i) eqn:E; [eauto|].
  apply nth_error_None in E. lia.
Qed.

Lemma field_lt fields i f : field fields i = Some f -> (i < length fields)%nat.
Proof. intros H. apply nth_error_Some. unfold field in H. congruence. Qed.

Lemma StringToType_known s :
  StringToType s = 0 \/
  StringToType s ∈ [TypeA; TypeAAAA; TypeCNAME; TypeMX; TypeNS; TypeTXT; TypeSOA].
Proof.
  unfold StringToType. repeat case_match; try (by left); right; set_solver.
Qed.

(** A record as the loader makes it: class IN, one of the seven types,
    no raw record data, an address of the length of its type, a single
    string for TXT. *)
Definition loaded_record rr : Prop :=
  Class rr = ClassIN /\ RDLength rr = 0 /\ RData rr = [] /\
  Type_ rr ∈ [TypeA; TypeAAAA; TypeCNAME; TypeMX; TypeNS; TypeTXT; TypeSOA] /\
  (Type_ rr = TypeA -> length (Address rr) = 4%nat) /\
  (Type_ rr = TypeAAAA -> length (Address rr) = 16%nat) /\
  (Type_ rr = TypeTXT -> length (Text rr) = 1%nat) /\
  Priority rr < 2 ^ 16.

Lemma To4_nonempty_length ip : To4 ip <> [] -> length (To4 ip) = 4%nat.
Proof. by destruct (To4_length ip). Qed.

Lemma To16_nonempty_length ip : To16 ip <> [] -> length (To16 ip) = 16%nat.
Proof. by destruct (To16_length ip). Qed.

Lemma ParseUint_loop_bound s n maxVal v :
  ParseUint_loop s n maxVal = (v, None) -> n <= maxVal -> v <= maxVal.
Proof.
  revert n. induction s as [|c s IH]; intros n; cbn [ParseUint_loop].
  - by intros [= <-].
  - destruct (_ && _); [|done].
    destruct (_ <=? n); [done|].
    destruct (_ || _) eqn:E; [done|].
    apply orb_false_iff in E as [_ E%N.ltb_ge].
    intros H _. by eapply IH.
Qed.

Lemma ParseUint_bound s bits v :
  ParseUint s bits = (v, None) -> v < 2 ^ bits.
Proof.
  unfold ParseUint. destruct s as [|c s]; [done|].
  intros H%ParseUint_loop_bound; [|lia].
  assert (0 < 2 ^ bits) by (apply N.neq_0_lt_0, N.pow_nonzero; lia). lia.
Qed.

Variable ParseIP : list byte -> list byte.

(** [parseZoneLine] never indexes outside the fields of the line, and the
    record it returns is a [loaded_record] whose owner is the name it
    returns. *)
Lemma parseZoneLine_result line origin currentName defaultTTL :
  match parseZoneLine ParseIP line origin currentName defaultTTL with
  | Ok (rr, name) => loaded_record rr /\ Name rr = name
  | Err _ => True
  | Panic | Diverge => False
  end.
Proof using Type.
  unfold parseZoneLine.
  destruct (Nat.ltb_spec (length (Fields line)) 3) as [|Hlen]; [done|].
  destruct (field_Some (Fields line) 0) as [fld ->]; [lia|]. cbn [try bind].
  set (fields := Fields line) in *. clearbody fields.
  match goal with |- context [let '(name, idx) := ?e in _] =>
    destruct e as [name idx] end.
  match goal with |- context [let '(ttl, idx) := ?e in _] =>
    destruct e as [ttl idx1] end.
  match goal with |- context [Nat.leb (length fields) ?e] =>
    generalize e; intros idx2 end.
  destruct (Nat.leb_spec (length fields) idx2) as [|Hidx2]; [done|].
  destruct (field_Some fields idx2) as [tyf ->]; [lia|]. cbn [try bind].
  destruct (N.eqb_spec (StringToType (ToUpper tyf)) 0) as [|Hty]; [done|].
  destruct (Nat.leb_spec (length fields) (S idx2)) as [|Hidx3]; [done|].
  destruct (StringToType_known (ToUpper tyf)) as [|Hknown]; [done|].
  generalize dependent (StringToType (ToUpper tyf)). intros ty Hty Hknown.
  assert (Hrec : ∀ address target priority text soa,
    (ty = TypeA -> length address = 4%nat) ->
    (ty = TypeAAAA -> length address = 16%nat) ->
    (ty = TypeTXT -> length text = 1%nat) ->
    priority < 2 ^ 16 ->
    loaded_record (mkRR name ty ClassIN ttl 0 [] address target priority text soa)).
  { intros. unfold loaded_record. cbn. done. }
  repeat (apply elem_of_cons in Hknown as [->|Hknown]);
    [..|by apply elem_of_nil in Hknown].
  - (* A *)
    change (TypeA =? TypeA) with true. cbv iota.
    destruct (bool_decide_reflect
                (ParseIP (Join (drop (S idx2) fields) (str " ")) = []));
      [done|]. cbn [orb].
    destruct (bool_decide_reflect
                (To4 (ParseIP (Join (drop (S idx2) fields) (str " "))) = []));
      [done|].
    split; [|done]. apply Hrec; try done. intros _. by apply To4_nonempty_length.
  - (* AAAA *)
    change (TypeAAAA =? TypeA) with false.
    change (TypeAAAA =? TypeAAAA) with true. cbv iota.
    destruct (bool_decide_reflect
                (ParseIP (Join (drop (S idx2) fields) (str " ")) = []));
      [done|]. cbn [orb].
    destruct (bool_decide_reflect
                (To16 (ParseIP (Join (drop (S idx2) fields) (str " "))) = []));
      [done|]. cbn [orb].
    destruct (bool_decide _); [|done]. cbn [negb].
    split; [|done]. apply Hrec; try done. intros _. by apply To16_nonempty_length.
  - (* CNAME *)
    change (TypeCNAME =? TypeA) with false.
    change (TypeCNAME =? TypeAAAA) with false.
    change (TypeCNAME =? TypeCNAME) with true. cbv iota. cbn [orb].
    destruct (field_Some fields (S idx2)) as [t ->]; [lia|]. cbn [try bind].
    split; [|done]. by apply Hrec.
  - (* MX *)
    change (TypeMX =? TypeA) with false.
    change (TypeMX =? TypeAAAA) with false.
    change (TypeMX =? TypeCNAME) with false.
    change (TypeMX =? TypeNS) with false.
    change (TypeMX =? TypeMX) with true. cbv iota. cbn [orb].
    destruct (Nat.leb_spec (length fields) (S idx2 + 1)); [done|].
    destruct (field_Some fields (S idx2)) as [pf ->]; [lia|]. cbn [try bind].
    destruct (ParseUint pf 16) as [priority [e|]] eqn:Hp; [done|].
    destruct (field_Some fields (S idx2 + 1)) as [t ->]; [lia|]. cbn [try bind].
    split; [|done]. apply Hrec; try done. by apply N.mod_lt.
  - (* NS *)
    change (TypeNS =? TypeA) with false.
    change (TypeNS =? TypeAAAA) with false.
    change (TypeNS =? TypeCNAME) with false.
    change (TypeNS =? TypeNS) with true. cbv iota. cbn [orb].
    destruct (field_Some fields (S idx2)) as [t ->]; [lia|]. cbn [try bind].
    split; [|done]. by apply Hrec.
  - (* TXT *)
    change (TypeTXT =? TypeA) with false.
    change (TypeTXT =? TypeAAAA) with false.
    change (TypeTXT =? TypeCNAME) with false.
    change (TypeTXT =? TypeNS) with false.
    change (TypeTXT =? TypeMX) with false.
    change (TypeTXT =? TypeTXT) with true. cbv iota. cbn [orb].
    split; [|done]. by apply Hrec.
  - (* SOA *)
    change (TypeSOA =? TypeA) with false.
    change (TypeSOA =? TypeAAAA) with false.
    change (TypeSOA =? TypeCNAME) with false.
    change (TypeSOA =? TypeNS) with false.
    change (TypeSOA =? TypeMX) with false.
    change (TypeSOA =? TypeTXT) with false.
    change (TypeSOA =? TypeSOA) with true. cbv iota. cbn [orb].
    destruct (Nat.leb_spec (S idx2 + 7) (length fields)); [|split; [by apply Hrec|done]].
    destruct (field_Some fields (S idx2)) as [f0 ->]; [lia|].
    destruct (field_Some fields (S idx2 + 1)) as [f1 ->]; [lia|].
    destruct (field_Some fields (S idx2 + 2)) as [f2 ->]; [lia|].
    destruct (field_Some fields (S idx2 + 3)) as [f3 ->]; [lia|].
    destruct (field_Some fields (S idx2 + 4)) as [f4 ->]; [lia|].
    destruct (field_Some fields (S idx2 + 5)) as [f5 ->]; [lia|].
    destruct (field_Some fields (S idx2 + 6)) as [f6 ->]; [lia|].
    cbn [try bind]. split; [by apply Hrec|done].
Qed.

(** The zone of the loader, when there is one, was built with [AddRecord]
    from records as [parseZoneLine] makes them. *)
Definition stored (oz : option Zone) : Prop :=
  ∀ z, oz = Some z ->
       ∃ origin rs, z = buildZone origin rs /\ Forall loaded_record rs.

Lemma stored_AddRecord oz origin rr :
  stored oz -> loaded_record rr ->
  stored (Some (AddRecord (match oz with None => NewZone origin | Some z => z end) rr)).
Proof using Type.
  intros Hs Hrr z [= <-]. destruct oz as [z0|].
  - destruct (Hs z0 eq_refl) as (o & rs & -> & Hrs).
    exists o, (rs ++ [rr]). split; [apply AddRecord_buildZone|].
    apply Forall_app. split; [done|]. by constructor.
  - exists origin, [rr]. split; [done|]. by constructor.
Qed.

(** A line of the file whose directive [$TTL] carries a value that is not
    a duration. *)
Definition bad_TTL_line (text : list byte) (e : NumError) : Prop :=
  HasPrefix (TrimSpace text) (str "$TTL") = true /\
  snd (parseTTL (TrimSpace (TrimPrefix (TrimSpace text) (str "$TTL")))) = Some e.

Lemma scanLine_result text sk st :
  match scanLine ParseIP text sk st with
  | Ok (_, st') =>
      lineNum st' = S (lineNum st) /\ (stored (zone st) -> stored (zone st'))
  | Err e => ∃ e', e = invalid_TTL (S (lineNum st)) e' /\ bad_TTL_line text e'
  | Panic | Diverge => False
  end.
Proof using Type.
  unfold scanLine. cbn [tick zone origin defaultTTL currentName lineNum].
  destruct sk; [done|].
  destruct (bool_decide (TrimSpace text = []) || HasPrefix (TrimSpace text) (str ";"));
    [done|].
  destruct (HasPrefix (TrimSpace text) (str "$ORIGIN")).
  { cbn [lineNum zone]. split; [done|]. intros Hs z Hz.
    destruct (zone st) as [z0|] eqn:E.
    - apply Hs. congruence.
    - injection Hz as <-. exists (TrimSuffix
        (TrimSpace (TrimPrefix (TrimSpace text) (str "$ORIGIN"))) (str ".")), [].
      split; [done|constructor]. }
  destruct (HasPrefix (TrimSpace text) (str "$TTL")) eqn:Httl.
  { destruct (parseTTL _) as [ttl [e|]] eqn:Hp; [|done].
    exists e. split; [done|]. split; [done|]. by rewrite Hp. }
  destruct (Contains (TrimSpace text) (str "(")); [done|].
  pose proof (parseZoneLine_result (TrimSpace text) (origin st) (currentName st)
                (defaultTTL st)) as Hr.
  destruct (parseZoneLine ParseIP (TrimSpace text) (origin st) (currentName st)
              (defaultTTL st)) as [[rr name]|e| |]; try done.
  cbn [lineNum zone]. split; [done|]. intros Hs.
  destruct Hr as [Hrr _]. by apply stored_AddRecord.
Qed.

Lemma scan_result lines : ∀ sk st,
  match scan ParseIP lines sk st with
  | Ok (_, st') => stored (zone st) -> stored (zone st')
  | Err e =>
      ∃ i text e', lines !! i = Some text /\
                   e = invalid_TTL (lineNum st + i + 1) e' /\
                   bad_TTL_line text e'
  | Panic | Diverge => False
  end.
Proof using Type.
  induction lines as [|text lines IH]; intros sk st; [cbn [scan]; auto|].
  cbn [scan]. pose proof (scanLine_result text sk st) as H1.
  destruct (scanLine ParseIP text sk st) as [[sk1 st1]|e| |]; cbn [bind];
    try done.
  - destruct H1 as [Hn Hs]. specialize (IH sk1 st1).
    destruct (scan ParseIP lines sk1 st1) as [[sk2 st2]|e| |]; try done.
    + auto.
    + destruct IH as (i & t & e' & Hi & -> & Hbad).
      exists (S i), t, e'. split; [done|]. split; [|done].
      f_equal. lia.
  - destruct H1 as (e' & -> & Hbad).
    exists 0%nat, text, e'. split; [done|]. split; [|done]. f_equal. lia.
Qed.

(** The records of a loaded zone: every record the loader stored has
    class IN and one of the seven types, an address of four bytes for A
    and of sixteen for AAAA, one string for TXT, and no raw record data. *)
Theorem LoadZoneFile_records f z k l r :
  LoadZoneFile ParseIP f = Ok (Some z) ->
  Zone_Records z !! k = Some l -> r ∈ l ->
  loaded_record r.
Proof using Type.
  destruct f as [|lines scanErr]; [done|]. cbn [LoadZoneFile].
  pose proof (scan_result lines false initial) as Hs.
  destruct (scan ParseIP lines false initial) as [[sk st]|e| |]; cbn [bind];
    try done.
  destruct scanErr; [done|]. intros [= Hz] Hk Hr.
  destruct (Hs (λ z H, ltac:(discriminate H)) z Hz) as (o & rs & -> & Hrs).
  destruct (buildZone_entries _ _ _ _ Hk) as [_ Hin].
  destruct (Hin r Hr) as [Hrin _].
  by eapply Forall_forall in Hrs.
Qed.

(** A file whose lines are ASCII. *)
Definition ascii_file (f : file) : bool :=
  match f with
  | unreadable => true
  | readable lines _ => forallb isASCII lines
  end.

(** On a file whose lines are ASCII [LoadZoneFile] always returns, and it
    fails in three cases only: the file cannot be opened, the scanner
    stops with an error, or some line is a [$TTL] directive whose value
    is not a duration; the error then carries the number of that line,
    counted from one. *)
Theorem LoadZoneFile_failures f :
  ascii_file f = true ->
  match LoadZoneFile ParseIP f with
  | Ok _ => True
  | Err open_failed => f = unreadable
  | Err scan_failed => ∃ lines, f = readable lines true
  | Err (invalid_TTL n e) =>
      ∃ lines scanErr text,
        f = readable lines scanErr /\ (1 <= n)%nat /\
        lines !! (n - 1)%nat = Some text /\ bad_TTL_line text e
  | Panic | Diverge => False
  end.
Proof using Type.
  intros _.
  destruct f as [|lines scanErr]; [done|]. cbn [LoadZoneFile].
  pose proof (scan_result lines false initial) as Hs.
  destruct (scan ParseIP lines false initial) as [[sk st]|e| |]; cbn [bind];
    try done.
  - destruct scanErr; [eauto|done].
  - destruct Hs as (i & text & e' & Hi & -> & Hbad).
    exists lines, scanErr, text. cbn [initial lineNum].
    split; [done|]. split; [lia|]. split; [|done].
    by replace (0 + i + 1 - 1)%nat with i by lia.
Qed.

End loader_records.

Lemma LoadZoneFile_failures_witness :
  match LoadZoneFile ParseIPv4
          (readable [str "$TTL 1h"; str "www IN A 1.2.3.4";
                     str "$TTL 99999999999x"] false) with
  | Ok _ => True
  | Err open_failed =>
      readable [str "$TTL 1h"; str "www IN A 1.2.3.4";
                str "$TTL 99999999999x"] false = unreadable
  | Err scan_failed =>
      ∃ lines, readable [str "$TTL 1h"; str "www IN A 1.2.3.4";
                         str "$TTL 99999999999x"] false = readable lines true
  | Err (invalid_TTL n e) =>
      ∃ lines scanErr text,
        readable [str "$TTL 1h"; str "www IN A 1.2.3.4";
                  str "$TTL 99999999999x"] false = readable lines scanErr /\
        (1 <= n)%nat /\
        lines !! (n - 1)%nat = Some text /\ bad_TTL_line text e
  | Panic | Diverge => False
  end.
Proof.
  apply (LoadZoneFile_failures ParseIPv4
           (readable [str "$TTL 1h"; str "www IN A 1.2.3.4";
                      str "$TTL 99999999999x"] false)).
  reflexivity.
Defined.

Lemma LoadZoneFile_records_witness : loaded_record upper_case_record.
Proof.
  apply (LoadZoneFile_records ParseIPv4 upper_case_file
           (buildZone (str "Example.COM") [upper_case_record])
           (str "www.example.com:1") [upper_case_record] upper_case_record).
  - vm_compute. reflexivity.
  - vm_compute. reflexivity.
  - apply list_elem_of_here.
Defined.

(** ** The zone-file loader: lines only add to the zone *)

Section loader_monotone.

Implicit Types (st : loader) (z : Zone) (rr r : ResourceRecord).

(** [z'] has the name of [z] and every entry of [z], possibly with more
    records behind those of [z]. *)
Definition extends z z' : Prop :=
  Zone_Name z' = Zone_Name z /\
  ∀ k l, Zone_Records z !! k = Some l ->
         ∃ l', Zone_Records z' !! k = Some (l ++ l').

Lemma extends_refl z : extends z z.
Proof. split; [done|]. intros k l H. exists []. by rewrite app_nil_r. Qed.

Lemma extends_trans z1 z2 z3 : extends z1 z2 -> extends z2 z3 -> extends z1 z3.
Proof.
  intros [Hn1 H1] [Hn2 H2]. split; [congruence|]. intros k l Hl.
  destruct (H1 k l Hl) as [l1 Hl1]. destruct (H2 k _ Hl1) as [l2 Hl2].
  exists (l1 ++ l2). by rewrite app_assoc.
Qed.

Lemma extends_AddRecord z rr : extends z (AddRecord z rr).
Proof.
  split; [done|]. intros k l Hl. cbn [AddRecord Zone_Records].
  destruct (decide (recordKey (Name rr) (Type_ rr) = k)) as [<-|Hne].
  - rewrite lookup_insert_eq, Hl. cbn [default]. eauto.
  - rewrite lookup_insert_ne by done. exists []. by rewrite app_nil_r.
Qed.

Variable ParseIP : list byte -> list byte.

Lemma scanLine_extends text sk st sk' st' z :
  scanLine ParseIP text sk st = Ok (sk', st') -> zone st = Some z ->
  ∃ z', zone st' = Some z' /\ extends z z'.
Proof using Type.
  unfold scanLine. cbn [tick zone origin defaultTTL currentName lineNum].
  intros H Hz. rewrite Hz in H.
  repeat case_match; simplify_eq; cbn [zone];
    first [ by eexists; split; [done|apply extends_refl]
          | by eexists; split; [done|apply extends_AddRecord] ].
Qed.

Lemma scan_extends lines : ∀ sk st sk' st' z,
  scan ParseIP lines sk st = Ok (sk', st') -> zone st = Some z ->
  ∃ z', zone st' = Some z' /\ extends z z'.
Proof using Type.
  induction lines as [|text lines IH]; intros sk st sk' st' z H Hz.
  - injection H as <- <-. exists z. split; [done|apply extends_refl].
  - cbn [scan] in H.
    destruct (scanLine ParseIP text sk st) as [[sk1 st1]|e| |] eqn:H1;
      cbn [bind] in H; try done.
    destruct (scanLine_extends _ _ _ _ _ _ H1 Hz) as (z1 & Hz1 & He1).
    destruct (IH _ _ _ _ _ H Hz1) as (z2 & Hz2 & He2).
    exists z2. split; [done|]. by eapply extends_trans.
Qed.

Lemma scan_app l1 l2 sk st :
  scan ParseIP (l1 ++ l2) sk st =
    let* (sk1, st1) := scan ParseIP l1 sk st in scan ParseIP l2 sk1 st1.
Proof using Type.
  revert sk st. induction l1 as [|text l1 IH]; intros sk st; [done|].
  cbn [app scan].
  destruct (scanLine ParseIP text sk st) as [[sk1 st1]|e| |]; cbn [bind];
    [apply IH|done..].
Qed.

(** Lines added at the end of a zone file never take anything away: when
    the file and the longer file both load, the longer file gives a zone
    with the same name, in which every entry of the shorter file's zone
    is still there, with the same records in front. *)
Theorem LoadZoneFile_append lines more z oz :
  LoadZoneFile ParseIP (readable lines false) = Ok (Some z) ->
  LoadZoneFile ParseIP (readable (lines ++ more) false) = Ok oz ->
  ∃ z', oz = Some z' /\ Zone_Name z' = Zone_Name z /\
        ∀ k l, Zone_Records z !! k = Some l ->
               ∃ l', Zone_Records z' !! k = Some (l ++ l').
Proof using Type.
  cbn [LoadZoneFile]. rewrite scan_app.
  destruct (scan ParseIP lines false initial) as [[sk1 st1]|e| |] eqn:H1;
    cbn [bind]; try done.
  intros [= Hz].
  destruct (scan ParseIP more sk1 st1) as [[sk2 st2]|e| |] eqn:H2;
    cbn [bind]; try done.
  intros [= <-].
  destruct (scan_extends _ _ _ _ _ _ H2 Hz) as (z' & Hz' & He).
  exists z'. split; [done|]. exact He.
Qed.

End loader_monotone.

Lemma LoadZoneFile_append_witness :
  ∃ z', Some (buildZone (str "Example.COM") [upper_case_record; upper_case_record])
          = Some z' /\
        Zone_Name z' = Zone_Name (buildZone (str "Example.COM") [upper_case_record]) /\
        ∀ k l, Zone_Records (buildZone (str "Example.COM") [upper_case_record]) !! k
                 = Some l ->
               ∃ l', Zone_Records z' !! k = Some (l ++ l').
Proof.
  apply (LoadZoneFile_append ParseIPv4
           [str "$ORIGIN Example.COM."; str "WWW IN A 1.2.3.4"]
           [str "$ORIGIN other.org."; str "WWW.Example.COM. IN A 1.2.3.4"]).
  - vm_compute. reflexivity.
  - vm_compute. reflexivity.
Defined.

(** ** Labels of a name, and the size of an encoded name *)

Section labels_of_names.

(** Joining the labels [splitLabels] returns gives the name back, without
    its trailing dot. *)
Theorem joinLabels_splitLabels name :
  joinLabels (splitLabels name) = TrimSuffix name (str ".").
Proof.
  unfold joinLabels, splitLabels.
  destruct (bool_decide_reflect (TrimSuffix name (str ".") = [])) as [->|_];
    [done|].
  change (str ".") with ["."%char]. apply Join_Split.
Qed.

Lemma length_encodeLabel l : (length (encodeLabel l) <= 1 + length l)%nat.
Proof.
  unfold encodeLabel. destruct (Nat.ltb_spec 63 (length l)); cbn [length].
  - rewrite length_take. lia.
  - lia.
Qed.

Lemma length_encoded_labels (sep : byte) ls :
  ls <> [] ->
  (length (flat_map encodeLabel ls) <= length (Join ls [sep]) + 1)%nat.
Proof.
  induction ls as [|l ls IH]; [done|]. intros _.
  destruct ls as [|l' ls].
  - cbn [flat_map Join]. rewrite app_nil_r.
    pose proof (length_encodeLabel l). lia.
  - rewrite Join_cons. cbn [flat_map] in *. rewrite !length_app in *.
    pose proof (length_encodeLabel l). cbn [length].
    specialize (IH ltac:(done)). lia.
Qed.

Lemma length_TrimSuffix s suffix : (length (TrimSuffix s suffix) <= length s)%nat.
Proof.
  unfold TrimSuffix. destruct (HasSuffix s suffix); [|done].
  rewrite length_take. lia.
Qed.

(** An encoded name ends with the zero octet and is at most two bytes
    longer than the name, whatever the name. *)
Theorem encodeName_size name :
  (∃ body, encodeName name = body ++ bytes [0]) /\
  (1 <= length (encodeName name) <= length name + 2)%nat.
Proof.
  unfold encodeName.
  destruct (bool_decide (name = str "") || bool_decide (name = str ".")).
  - split; [by exists []|]. cbn. lia.
  - rewrite encodeName_fold. cbn [app]. split; [eauto|].
    rewrite length_app. cbn [length bytes map].
    pose proof (length_encoded_labels "."%char
                  (Split (TrimSuffix name (str ".")) "."%char)
                  (Split_nonempty _ _)) as H.
    rewrite Join_Split in H.
    pose proof (length_TrimSuffix name (str ".")). lia.
Qed.

End labels_of_names.

(** ** One handler after the other on the shared builder *)

Section sequential_handlers.

Lemma handleQuery_prog_resets zones fuel data prog :
  handleQuery zones fuel data = Ok (Some prog) ->
  ∃ rest, prog = Reset :: rest.
Proof.
  unfold handleQuery.
  destruct (Parse fuel data) as [query|e| |]; cbn [bind]; try done.
  destruct (Questions query) as [|q qs] eqn:Hq; [done|].
  destruct (findZone zones (QName q)) as [zone|].
  - destruct (_ && _); intros [= <-]; eexists; reflexivity.
  - intros [= <-]. eexists. reflexivity.
Qed.

(** When the two handlers run one after the other, each sends the reply
    it sends alone on a fresh builder, whatever the buffer of the builder
    held at the start. *)
Theorem handlers_in_sequence zones fuel data1 data2 prog1 prog2 buf :
  handleQuery zones fuel data1 = Ok (Some prog1) ->
  handleQuery zones fuel data2 = Ok (Some prog2) ->
  interleave (repeat false (S (length prog1)) ++ repeat true (S (length prog2)))
             buf (mkGoroutine prog1 None) (mkGoroutine prog2 None) =
    (alone NewBuilder prog2,
     mkGoroutine [] (Some (alone NewBuilder prog1)),
     mkGoroutine [] (Some (alone NewBuilder prog2))).
Proof.
  intros [r1 ->]%handleQuery_prog_resets [r2 ->]%handleQuery_prog_resets.
  rewrite interleave_sequential. unfold alone, NewBuilder.
  by rewrite !run_Reset.
Qed.

Lemma handlers_in_sequence_witness :
  interleave
    (repeat false (S (length (BuildResponse_prog example_message [example_answer] []))) ++
     repeat true (S (length (BuildResponse_prog second_message [example_answer] []))))
    (bytes [1; 2; 3])
    (mkGoroutine (BuildResponse_prog example_message [example_answer] []) None)
    (mkGoroutine (BuildResponse_prog second_message [example_answer] []) None) =
    (alone NewBuilder (BuildResponse_prog second_message [example_answer] []),
     mkGoroutine [] (Some (alone NewBuilder
                             (BuildResponse_prog example_message [example_answer] []))),
     mkGoroutine [] (Some (alone NewBuilder
                             (BuildResponse_prog second_message [example_answer] [])))).
Proof.
  apply (handlers_in_sequence example_zones 3 example_query second_query).
  - vm_compute. reflexivity.
  - vm_compute. reflexivity.
Defined.

End sequential_handlers.

(** ** Names of record types, and TTLs with a unit *)

Section type_names.

(** A string [StringToType] knows is the name [TypeToString] gives to its
    type. *)
Theorem TypeToString_StringToType s :
  StringToType s <> 0 -> TypeToString (StringToType s) = s.
Proof.
  unfold StringToType.
  repeat (case_bool_decide; [by subst|]). done.
Qed.

Lemma TypeToString_StringToType_witness :
  StringToType (str "MX") <> 0 /\
  TypeToString (StringToType (str "MX")) = str "MX".
Proof.
  split; [done|]. apply (TypeToString_StringToType (str "MX")). done.
Defined.

(** The name of one of the seven types the server knows reads back as the
    type; the name [TYPEn] of any other type reads back as 0. *)
Theorem StringToType_TypeToString t :
  StringToType (TypeToString t) =
    if bool_decide (t ∈ [TypeA; TypeNS; TypeCNAME; TypeSOA; TypeMX;
                          TypeTXT; TypeAAAA])
    then t else 0.
Proof.
  unfold TypeToString.
  destruct (N.eqb_spec t TypeA) as [->|?]; [reflexivity|].
  destruct (N.eqb_spec t TypeAAAA) as [->|?]; [reflexivity|].
  destruct (N.eqb_spec t TypeCNAME) as [->|?]; [reflexivity|].
  destruct (N.eqb_spec t TypeMX) as [->|?]; [reflexivity|].
  destruct (N.eqb_spec t TypeNS) as [->|?]; [reflexivity|].
  destruct (N.eqb_spec t TypeTXT) as [->|?]; [reflexivity|].
  destruct (N.eqb_spec t TypeSOA) as [->|?]; [reflexivity|].
  rewrite (bool_decide_eq_false_2 (t ∈ _)).
  - unfold StringToType.
    repeat (rewrite bool_decide_eq_false_2
              by (cbv [str list_ascii_of_string app]; discriminate)).
    done.
  - unfold TypeA, TypeNS, TypeCNAME, TypeSOA, TypeMX, TypeTXT, TypeAAAA in *.
    rewrite !elem_of_cons, elem_of_nil. intuition congruence.
Qed.

End type_names.

Section ttl_units.

Lemma ParseUint_loop_digits d acc maxVal :
  maxVal < 2 ^ 60 ->
  DecimalPos.Unsigned.of_lu (Decimal.rev d) +
    acc * 10 ^ DecimalPos.Unsigned.usize d <= maxVal ->
  ParseUint_loop (digits d) acc maxVal =
    (DecimalPos.Unsigned.of_lu (Decimal.rev d) +
     acc * 10 ^ DecimalPos.Unsigned.usize d, None).
Proof.
  intros Hmax. revert acc.
  assert (Hpow : ∀ d', 1 <= 10 ^ DecimalPos.Unsigned.usize d').
  { intros d'. assert (10 ^ DecimalPos.Unsigned.usize d' <> 0)
      by (apply N.pow_nonzero; lia). lia. }
  assert (Hcut : (2 ^ 64 - 1) / 10 + 1 = 1844674407370955162) by reflexivity.
  assert (H60 : 2 ^ 60 = 1152921504606846976) by reflexivity.
  assert (H64 : 2 ^ 64 = 18446744073709551616) by reflexivity.
  induction d; intros acc; cbn [digits ParseUint_loop];
    [cbn; intros _; f_equal; lia|..];
    (change (andb _ _) with true; cbv iota;
     unfold Decimal.rev; cbn [Decimal.revapp];
     rewrite (DecimalPos.Unsigned.of_lu_revapp d);
     cbn [DecimalPos.Unsigned.usize DecimalPos.Unsigned.of_lu];
     rewrite N.pow_succ_r';
     change (N_of_ascii _ - 48) with 0 ||
     change (N_of_ascii _ - 48) with 1 || change (N_of_ascii _ - 48) with 2 ||
     change (N_of_ascii _ - 48) with 3 || change (N_of_ascii _ - 48) with 4 ||
     change (N_of_ascii _ - 48) with 5 || change (N_of_ascii _ - 48) with 6 ||
     change (N_of_ascii _ - 48) with 7 || change (N_of_ascii _ - 48) with 8 ||
     change (N_of_ascii _ - 48) with 9;
     intros Hle; pose proof (Hpow d) as Hp;
     match goal with |- context [(acc * 10) mod 2 ^ 64 + ?k] =>
       assert (Hacc : acc * 10 + k <= maxVal) by nia;
       rewrite Hcut;
       destruct (N.leb_spec 1844674407370955162 acc); [lia|];
       rewrite (N.mod_small (acc * 10)) by lia;
       rewrite (N.mod_small (acc * 10 + k)) by lia;
       destruct (N.ltb_spec (acc * 10 + k) (acc * 10)); [lia|];
       destruct (N.ltb_spec maxVal (acc * 10 + k)); [lia|];
       cbn [orb]; rewrite IHd by nia; f_equal; lia
     end).
Qed.

Lemma ParseUint_loop_Itoa n maxVal :
  maxVal < 2 ^ 60 -> n <= maxVal ->
  ParseUint_loop (Itoa n) 0 maxVal = (n, None).
Proof.
  intros Hmax Hn.
  assert (DecimalPos.Unsigned.of_lu (Decimal.rev (N.to_uint n)) = n) as E.
  { rewrite <- DecimalPos.Unsigned.of_uint_alt. apply DecimalN.Unsigned.of_to. }
  unfold Itoa. rewrite ParseUint_loop_digits by (rewrite ?E; lia).
  f_equal. lia.
Qed.

Lemma Itoa_nonempty n : Itoa n <> [].
Proof.
  unfold Itoa. destruct n as [|p]; [done|]. cbn [N.to_uint].
  intros H. pose proof (DecimalPos.Unsigned.of_to p) as Hp.
  destruct (Pos.to_uint p); try discriminate H. cbn in Hp. done.
Qed.

Lemma ParseUint_Itoa n :
  n < 2 ^ 32 -> ParseUint (Itoa n) 32 = (n, None).
Proof.
  intros Hn. unfold ParseUint.
  destruct (Itoa n) eqn:H; [by apply Itoa_nonempty in H|].
  rewrite <- H. apply ParseUint_loop_Itoa; [done|].
  change (2 ^ 32 - 1) with 4294967295. change (2 ^ 32) with 4294967296 in Hn.
  lia.
Qed.

Lemma digits_are_digits d c :
  c ∈ digits d -> 48 <= N_of_ascii c <= 57.
Proof.
  induction d; cbn [digits]; [by intros ?%elem_of_nil|..];
    (intros [->|?]%elem_of_cons; [cbn; lia|auto]).
Qed.

Lemma ToLower_digits d : ToLower (digits d) = digits d.
Proof.
  unfold ToLower. induction d; cbn [digits map]; [done|..];
    (rewrite IHd; done).
Qed.

Lemma HasSuffix_last s (c c' : byte) :
  HasSuffix (s ++ [c]) [c'] = bool_decide (c = c').
Proof.
  unfold HasSuffix. rewrite length_app. cbn [length].
  replace (length s + 1 - 1)%nat with (length s) by lia.
  rewrite drop_app_length.
  destruct (Nat.leb_spec 1 (length s + 1)); [|lia]. cbn [andb].
  apply bool_decide_ext. split; [by intros [= ->]|by intros ->].
Qed.

Lemma HasSuffix_digits d (c : byte) :
  ¬ 48 <= N_of_ascii c <= 57 -> HasSuffix (digits d) [c] = false.
Proof.
  intros Hc. apply not_true_is_false. intros [s' H]%HasSuffix_true.
  apply Hc, (digits_are_digits d). rewrite H. set_solver.
Qed.

Lemma ToLower_Itoa n : ToLower (Itoa n) = Itoa n.
Proof. apply ToLower_digits. Qed.

Lemma HasSuffix_Itoa n (c : byte) :
  ¬ 48 <= N_of_ascii c <= 57 -> HasSuffix (Itoa n) [c] = false.
Proof. apply HasSuffix_digits. Qed.

Lemma dropLast_app s (c : byte) : dropLast (s ++ [c]) = s.
Proof.
  unfold dropLast. rewrite length_app. cbn [length].
  replace (length s + 1 - 1)%nat with (length s) by lia.
  by rewrite take_app_length.
Qed.

(** A TTL written as a decimal number below 2^32, alone or followed by
    one of the units s, m, h, d and w in either case, is the number times
    the seconds of the unit, reduced modulo 2^32: the product wraps and
    no error is reported. *)
Theorem parseTTL_units n unit seconds :
  n < 2 ^ 32 ->
  (unit, seconds) ∈ [(str "", 1); (str "s", 1); (str "m", 60);
                     (str "h", 3600); (str "d", 86400);
                     (str "w", 604800)] ->
  parseTTL (Itoa n ++ unit) = ((n * seconds) mod 2 ^ 32, None) /\
  parseTTL (ToUpper (Itoa n ++ unit)) = ((n * seconds) mod 2 ^ 32, None).
Proof.
  intros Hn Hin.
  assert (parseTTL (Itoa n ++ unit) = ((n * seconds) mod 2 ^ 32, None))
    as H.
  { unfold parseTTL. rewrite ToLower_app, ToLower_Itoa.
    rewrite !elem_of_cons, elem_of_nil in Hin.
    destruct Hin as [[= -> ->]|[[= -> ->]|[[= -> ->]|[[= -> ->]|
                    [[= -> ->]|[[= -> ->]|[]]]]]]];
      [change (ToLower _) with (@nil byte); rewrite app_nil_r
      |change (ToLower _) with ["s"%char]
      |change (ToLower _) with ["m"%char]
      |change (ToLower _) with ["h"%char]
      |change (ToLower _) with ["d"%char]
      |change (ToLower _) with ["w"%char]];
      change (str "s") with ["s"%char]; change (str "m") with ["m"%char];
      change (str "h") with ["h"%char]; change (str "d") with ["d"%char];
      change (str "w") with ["w"%char];
      rewrite ?HasSuffix_last, ?HasSuffix_Itoa by (cbn; lia);
      repeat (rewrite bool_decide_eq_false_2 by discriminate);
      rewrite ?bool_decide_eq_true_2 by reflexivity;
      cbv iota beta; rewrite ?dropLast_app, (ParseUint_Itoa n Hn);
      cbv iota beta; by rewrite (N.mod_small n) by done. }
  split; [done|].
  unfold parseTTL in *. by rewrite ToLower_ToUpper.
Qed.

Lemma parseTTL_units_witness :
  parseTTL (Itoa 7102 ++ str "w") = ((7102 * 604800) mod 2 ^ 32, None) /\
  parseTTL (ToUpper (Itoa 7102 ++ str "w")) =
    ((7102 * 604800) mod 2 ^ 32, None).
Proof.
  apply (parseTTL_units 7102 (str "w") 604800).
  - reflexivity.
  - rewrite !elem_of_cons. do 5 right. by left.
Defined.

End ttl_units.

(** ** The handler, from the datagram to the reply *)

Section handler.

Local Ltac bits_step :=
  first [ rewrite N.lor_spec
        | rewrite N.mod_pow2_bits_low by lia
        | rewrite N.mod_pow2_bits_high by lia
        | rewrite N.shiftl_spec_low by lia
        | rewrite N.shiftl_spec_high' by lia
        | rewrite N.shiftr_spec'
        | rewrite orb_false_r
        | rewrite orb_false_l ].

Local Ltac bits := repeat bits_step; try done; try (f_equal; lia).

Lemma byte_of_N_of_ascii n (b : byte) :
  n mod 2 ^ 8 = N_of_ascii b -> byte_of_N n = b.
Proof.
  intros H. unfold byte_of_N. change 256 with (2 ^ 8). rewrite H.
  apply ascii_N_embedding.
Qed.

Lemma PutUint16_Uint16 s v : Uint16 s = Some v -> PutUint16 v = take 2 s.
Proof.
  destruct s as [|b0 [|b1 s]]; try done. cbn [Uint16 take]. intros [= <-].
  unfold PutUint16. f_equal; [|f_equal].
  - apply byte_of_N_of_ascii. rewrite (N_of_ascii_mod b0) at 2.
    rewrite (N_of_ascii_mod b1).
    apply N.bits_inj. intros n.
    destruct (N.lt_ge_cases n 8); [|bits].
    rewrite !N.mod_pow2_bits_low by lia. bits.
  - apply byte_of_N_of_ascii. rewrite (N_of_ascii_mod b1) at 2.
    apply N.bits_inj. intros n.
    destruct (N.lt_ge_cases n 8); bits.
Qed.

Lemma parseHeader_echo data h pos :
  parseHeader data = Ok (h, pos) ->
  PutUint16 (ID h) = take 2 data /\
  PutUint16 (QDCount h) = take 2 (drop 4 data).
Proof.
  unfold parseHeader. destruct (Nat.ltb_spec (length data) 12); [done|].
  rewrite !slice_Some by lia. cbn [mbind option_bind].
  repeat match goal with
  | |- context [try (Uint16 ?s)] =>
    let v := fresh "v" in let H := fresh "H" in
    destruct (Uint16 s) as [v|] eqn:H; cbn [try bind]; [|done];
    apply PutUint16_Uint16 in H
  end.
  intros [= <- <-]. cbn [ID QDCount].
  rewrite take_take in *. cbn [drop Nat.sub Nat.min] in *. done.
Qed.

Lemma Parse_echo fuel data query :
  Parse fuel data = Ok query ->
  PutUint16 (ID (Hdr query)) = take 2 data /\
  PutUint16 (len16 (Questions query)) = take 2 (drop 4 data).
Proof.
  intros HP. pose proof (Parse_Ok_header _ _ _ HP) as (_ & _ & Hqd & Hlen).
  unfold len16. rewrite Hlen, N2Nat.id, N.mod_small by done.
  revert HP.
  unfold Parse. destruct (parseHeader data) as [[h p]|e| |] eqn:Hh; try done.
  apply parseHeader_echo in Hh.
  destruct (parseEntries _ in_question _ _ _) as [[qs p1]|e| |];
    cbn [bind]; try done.
  destruct (parseEntries _ in_answer _ _ _) as [[an p2]|e| |];
    cbn [bind]; try done.
  destruct (parseEntries _ in_authority _ _ _) as [[ns p3]|e| |];
    cbn [bind]; try done.
  destruct (parseEntries _ in_additional _ _ _) as [[ar p4]|e| |];
    cbn [bind]; try done.
  intros [= <-]. done.
Qed.

(** The handler makes no index or slice access out of range, whatever the
    datagram and the zones: the parser stays inside the buffer and the
    first question is read only when there is one.  Whether the handler
    returns is decided by the parser alone: with the fuel given the run
    of the handler is unfinished exactly when the run of [Parse] is, as
    it is for every fuel on a compression-pointer loop. *)
Theorem handleQuery_in_bounds zones fuel data :
  handleQuery zones fuel data <> Panic /\
  (handleQuery zones fuel data = Diverge <-> Parse fuel data = Diverge).
Proof.
  unfold handleQuery. pose proof (Parse_no_panic fuel data).
  destruct (Parse fuel data) as [query|e| |]; cbn [bind]; try done.
  destruct (Questions query) as [|q qs]; [done|].
  destruct (findZone zones (QName q)); [|done].
  by destruct (_ && _).
Qed.

(** The reply of an uninterrupted run.  When the statements the handler
    asks of the builder run from start to end with no step of another
    handler on the builder in between, whatever the buffer held before,
    the bytes they leave in the buffer start with the two ID bytes of the
    datagram, have QR and AA set and TC and RA clear in the flags, and
    repeat the two bytes of the datagram's question count.  (The builder
    is shared and not locked: a reply built while another handler runs
    need not have this shape.) *)
Theorem handleQuery_reply_uninterrupted zones fuel data prog buf :
  handleQuery zones fuel data = Ok (Some prog) ->
  ∃ flags rest,
    run prog buf =
      take 2 data ++ PutUint16 flags ++ take 2 (drop 4 data) ++ rest /\
    flags < 2 ^ 16 /\
    N.testbit flags 15 = true /\ N.testbit flags 10 = true /\
    N.testbit flags 9 = false /\ N.testbit flags 7 = false.
Proof.
  unfold handleQuery.
  destruct (Parse fuel data) as [query|e| |] eqn:HP; cbn [bind]; try done.
  apply Parse_echo in HP as [Hid Hqd].
  destruct (Questions query) as [|q qs] eqn:Hq; [done|]. rewrite <- Hq in *.
  destruct (findZone zones (QName q)) as [zone|].
  - destruct (_ && _); intros [= <-].
    + change (run _ buf) with (BuildErrorResponse buf query RcodeNameError).
      rewrite BuildErrorResponse_bytes. unfold header_bytes, error_header.
      cbn [ID Flags QDCount ANCount NSCount ARCount]. rewrite Hid, Hqd.
      eexists _, _. rewrite <- !app_assoc. split; [reflexivity|].
      by vm_compute.
    + change (run _ buf) with
        (BuildResponse buf query (Lookup zone (QName q) (QType q))
                       (Lookup zone (Zone_Name zone) TypeNS)).
      rewrite BuildResponse_bytes. unfold header_bytes, response_header.
      cbn [ID Flags QDCount ANCount NSCount ARCount]. rewrite Hid, Hqd.
      eexists _, _. rewrite <- !app_assoc. split; [reflexivity|].
      destruct (negb _); by vm_compute.
  - intros [= <-].
    change (run _ buf) with (BuildErrorResponse buf query RcodeRefused).
    rewrite BuildErrorResponse_bytes. unfold header_bytes, error_header.
    cbn [ID Flags QDCount ANCount NSCount ARCount]. rewrite Hid, Hqd.
    eexists _, _. rewrite <- !app_assoc. split; [reflexivity|].
    by vm_compute.
Qed.

Lemma handleQuery_reply_uninterrupted_witness :
  ∃ flags rest,
    run (BuildResponse_prog example_message [example_answer] []) (bytes [9; 9]) =
      take 2 example_query ++ PutUint16 flags ++
      take 2 (drop 4 example_query) ++ rest /\
    flags < 2 ^ 16 /\
    N.testbit flags 15 = true /\ N.testbit flags 10 = true /\
    N.testbit flags 9 = false /\ N.testbit flags 7 = false.
Proof.
  apply (handleQuery_reply_uninterrupted example_zones 3 example_query).
  vm_compute. reflexivity.
Defined.

End handler.

(** ** The zones of the server *)

Section server_zones.

Lemma first_match_Some zones names z :
  first_match zones names = Some z ->
  ∃ k, k ∈ names /\ zones !! k = Some z.
Proof.
  induction names as [|n names IH]; [done|]. cbn [first_match].
  destruct (zones !! n) as [z'|] eqn:Hn.
  - intros [= ->]. exists n. split; [apply elem_of_cons; by left|done].
  - intros (k & Hk & Hz)%IH. exists k. split; [apply elem_of_cons; by right|done].
Qed.

Lemma suffixes_elem (labels suf : list (list byte)) :
  suf ∈ suffixes labels -> suf <> [] /\ ∃ pre, labels = pre ++ suf.
Proof.
  induction labels as [|l labels IH]; cbn [suffixes].
  - by intros ?%elem_of_nil.
  - intros [->|H]%elem_of_cons.
    + split; [done|]. by exists [].
    + destruct (IH H) as (? & pre & ->). split; [done|]. by exists (l :: pre).
Qed.

Lemma Join_app_suffix pre suf sep :
  suf <> [] -> ∃ p, Join (pre ++ suf) sep = p ++ Join suf sep.
Proof.
  intros Hsuf. induction pre as [|e pre [p IH]]; [by exists []|].
  cbn [app]. destruct (pre ++ suf) as [|e' rest] eqn:E.
  - by destruct pre, suf.
  - rewrite Join_cons, IH. exists (e ++ sep ++ p). by rewrite <- !app_assoc.
Qed.

Lemma ToLower_TrimSuffix name suffix :
  ToLower (TrimSuffix (ToLower name) suffix) = TrimSuffix (ToLower name) suffix.
Proof.
  unfold TrimSuffix. destruct (HasSuffix _ _); [|apply ToLower_idemp].
  unfold ToLower. rewrite <- firstn_map, map_map.
  f_equal. apply map_ext, toLower_idemp.
Qed.

Lemma length_ToLower s : length (ToLower s) = length s.
Proof. apply length_map. Qed.

(** A zone [findZone] returns for an ASCII name is registered under a
    lower-case key, and the key is a suffix of the lower-cased name
    without its trailing dot. *)
Theorem findZone_key zones name z :
  isASCII name = true ->
  findZone zones name = Some z ->
  ∃ k pre, zones !! k = Some z /\ ToLower k = k /\
           TrimSuffix (ToLower name) (str ".") = pre ++ k.
Proof.
  intros _ H.
  assert (first_match zones (probes name) = Some z) as (k & Hk & Hz)%first_match_Some.
  { rewrite <- H. symmetry. apply (findZone_loop_suffixes zones []). }
  unfold probes in Hk.
  apply list_elem_of_fmap in Hk as (suf & -> & Hsuf).
  apply suffixes_elem in Hsuf as (Hne & pre & Hlabels).
  unfold splitLabels in Hlabels.
  destruct (bool_decide_reflect (TrimSuffix (ToLower name) (str ".") = []))
    as [|_]; [by destruct pre, suf|].
  destruct (Join_app_suffix pre suf (str ".") Hne) as [p Hp].
  rewrite <- Hlabels in Hp. change (str ".") with ["."%char] in Hp at 2.
  rewrite Join_Split in Hp.
  exists (joinLabels suf), p. split; [done|]. split; [|done].
  pose proof (ToLower_TrimSuffix name (str ".")) as Hlow.
  rewrite Hp, ToLower_app in Hlow.
  apply app_inj_1 in Hlow as [_ Hlow]; [done|apply length_ToLower].
Qed.

Lemma findZone_key_witness :
  ∃ k pre, example_zones !! k =
             Some (buildZone (str "example.com") [example_answer]) /\
           ToLower k = k /\
           TrimSuffix (ToLower (str "WWW.Example.COM.")) (str ".") = pre ++ k.
Proof.
  apply (findZone_key example_zones (str "WWW.Example.COM.")).
  - reflexivity.
  - vm_compute. reflexivity.
Defined.

Variable ParseIP : list byte -> list byte.

Lemma scan_blank lines st :
  Forall (λ l, TrimSpace l = [] \/ HasPrefix (TrimSpace l) (str ";") = true)
         lines ->
  ∃ st', scan ParseIP lines false st = Ok (false, st') /\ zone st' = zone st.
Proof using Type.
  intros H. revert st. induction H as [|l lines Hl _ IH]; intros st.
  - by exists st.
  - cbn [scan]. unfold scanLine.
    replace (bool_decide (TrimSpace l = []) ||
             HasPrefix (TrimSpace l) (str ";")) with true.
    + cbn [bind]. destruct (IH (tick st)) as (st' & -> & Hz). by exists st'.
    + destruct Hl as [->| ->]; [done|by rewrite orb_true_r].
Qed.

(** A zone file that holds only blank lines and comments makes [LoadZone]
    panic: [LoadZoneFile] returns no zone and no error, and [LoadZone]
    reads the name of the zone. *)
Theorem LoadZone_without_zone zones lines :
  Forall (λ l, TrimSpace l = [] \/ HasPrefix (TrimSpace l) (str ";") = true)
         lines ->
  LoadZone ParseIP zones (readable lines false) = Panic.
Proof using Type.
  intros H. unfold LoadZone, LoadZoneFile.
  destruct (scan_blank lines initial H) as (st' & -> & Hz).
  cbn [bind]. by rewrite Hz.
Qed.

Lemma Zone_Name_AddRecord z rr : Zone_Name (AddRecord z rr) = Zone_Name z.
Proof using Type. reflexivity. Qed.

Lemma Zone_Name_buildZone origin rs :
  Zone_Name (buildZone origin rs) = ToLower origin.
Proof using Type.
  unfold buildZone. induction rs as [|r rs IH] using rev_ind; [done|].
  by rewrite fold_left_app.
Qed.

Lemma Split_app s t (sep : byte) :
  Split (s ++ sep :: t) sep = Split s sep ++ Split t sep.
Proof using Type.
  induction s as [|c s IH]; cbn [app Split].
  - by rewrite bool_decide_true.
  - rewrite IH. destruct (bool_decide (c = sep)); [done|].
    pose proof (Split_nonempty s sep). by destruct (Split s sep).
Qed.

Lemma suffixes_app (pre suf : list (list byte)) :
  suf <> [] -> suf ∈ suffixes (pre ++ suf).
Proof using Type.
  intros Hsuf. induction pre as [|l pre IH]; cbn [app suffixes].
  - destruct suf; [done|]. apply elem_of_cons. by left.
  - apply elem_of_cons. by right.
Qed.

Lemma first_match_singleton k z names :
  k ∈ names -> first_match {[k := z]} names = Some z.
Proof using Type.
  induction names as [|n names IH]; [by intros ?%elem_of_nil|].
  cbn [first_match]. intros Hk.
  destruct (({[k := z]} : gmap _ _) !! n) as [z'|] eqn:Hn.
  - by apply lookup_singleton_Some in Hn as [_ ->].
  - apply elem_of_cons in Hk as [->|Hk]; [|by apply IH].
    by rewrite lookup_singleton_eq in Hn.
Qed.

Lemma HasSuffix_app_r s t (c : byte) :
  t <> [] -> HasSuffix (s ++ t) [c] = HasSuffix t [c].
Proof using Type.
  intros Ht. destruct t as [|c' t'] using rev_ind; [done|].
  by rewrite app_assoc, !HasSuffix_last.
Qed.

Lemma findZone_suffix z origin p name :
  origin <> [] -> HasSuffix origin (str ".") = false ->
  (p = [] \/ ∃ sub, p = sub ++ str ".") ->
  ToLower name = p ++ origin ->
  findZone {[origin := z]} name = Some z.
Proof using Type.
  intros Hne Hdot Hp Hname.
  assert (findZone {[origin := z]} name =
          first_match {[origin := z]} (probes name)) as ->
    by apply (findZone_loop_suffixes _ []).
  apply first_match_singleton. unfold probes, splitLabels. rewrite Hname.
  change (str ".") with ["."%char] in *.
  rewrite TrimSuffix_id by (by rewrite HasSuffix_app_r).
  rewrite bool_decide_false by (by destruct p, origin).
  apply list_elem_of_fmap. exists (Split origin "."%char).
  split; [unfold joinLabels; change (str ".") with ["."%char];
          by rewrite Join_Split|].
  destruct Hp as [->|[sub ->]].
  - apply (suffixes_app []), Split_nonempty.
  - rewrite <- app_assoc. cbn [app]. rewrite Split_app.
    apply suffixes_app, Split_nonempty.
Qed.

(** The zone of a server that has loaded one zone file is found for the
    zone name and for every name below it, in any case, provided the
    zone name is not empty and does not end with a dot. *)
Theorem loaded_zone_is_found f z name :
  LoadZoneFile ParseIP f = Ok (Some z) ->
  Zone_Name z <> [] -> HasSuffix (Zone_Name z) (str ".") = false ->
  IsAuthoritative z name = true ->
  ∃ zones, LoadZone ParseIP NewServer f = Ok zones /\
           findZone zones name = Some z.
Proof using Type.
  intros Hf Hne Hdot Hauth. unfold LoadZone. rewrite Hf.
  eexists. split; [reflexivity|]. unfold NewServer.
  rewrite insert_empty.
  destruct (LoadZoneFile_built _ _ _ Hf) as (origin & rs & Hz).
  assert (ToLower (Zone_Name z) = Zone_Name z) as Hlow
    by (by rewrite Hz, Zone_Name_buildZone, ToLower_idemp).
  unfold IsAuthoritative in Hauth. rewrite Hlow in Hauth.
  apply orb_true_iff in Hauth as [H|H].
  - apply bool_decide_eq_true in H.
    apply (findZone_suffix z _ []); auto.
  - apply HasSuffix_true in H as [sub H].
    apply (findZone_suffix z _ (sub ++ str ".")); eauto.
    by rewrite <- app_assoc.
Qed.

End server_zones.

Lemma LoadZone_without_zone_witness :
  LoadZone ParseIPv4 NewServer
           (readable [str "; a zone file with no record"; str "   "] false) =
    Panic.
Proof.
  apply (LoadZone_without_zone ParseIPv4 NewServer).
  apply Forall_cons; split; [by right|].
  apply Forall_cons; split; [by left|]. constructor.
Defined.

Lemma loaded_zone_is_found_witness :
  ∃ zones, LoadZone ParseIPv4 NewServer upper_case_file = Ok zones /\
           findZone zones (str "WWW.Example.COM") =
             Some (buildZone (str "Example.COM") [upper_case_record]).
Proof.
  apply (loaded_zone_is_found ParseIPv4 upper_case_file
           (buildZone (str "Example.COM") [upper_case_record])
           (str "WWW.Example.COM")).
  - vm_compute. reflexivity.
  - vm_compute. discriminate.
  - vm_compute. reflexivity.
  - vm_compute. reflexivity.
Defined.

(** ** Zone selection: the probes of [findZone] *)

Section zone_probes.






End zone_probes.
